(** * A replicated file store: the coordinator of [DFS.cpp]

    The program keeps a fixed vector of storage nodes, each backed by a
    directory [node_<id>], and an ordered map from file names to the ids of
    the nodes holding a copy.  This development embeds the classes [Node]
    and [DistributedFS] and proves what the coordinator does on upload,
    download, delete, node failure and recovery, and the replica audit.

    Modelling choices.
    - [int] is [Z]; the vector [nodes] is a [list Node] and [nodes[i - 1]]
      is a partial lookup: an index outside the vector is undefined in C++
      and is reported here by the outcome [OutOfBounds].
    - [std::map<string, vector<int>>] is a [gmap string (list Z)]; where the
      source iterates over the map the entries are taken in key order.
    - [std::filesystem] is an environment the program acts on.  It is a
      finite map from paths to contents together with the log of every
      call made so far.  A call raises [filesystem_error] when its source
      file is missing or when the environment says so; the environment is
      the section variable [io_fault], asked with the number of calls made
      before and the call itself; a call that raises leaves the files as
      they were.
    - The map holds regular files only.  A directory is outside it, as
      the source of [fs::copy] (which, with [overwrite_existing] alone,
      returns without writing anything) and as its destination; a copy
      into a missing directory is one of the failures [io_fault] stands
      for.  What is stated about the contents of copies is therefore
      stated for a source that is a regular file.
    - A path stands for a file by its spelling.  On a disk two spellings
      can be one file (a [..] component, a link), so what tells the
      copies of different nodes apart is stated for names without a
      directory part, [plain_name].
    - [fs::exists] reads the map.  Inside [upload] it is taken to return;
      the exception it may raise there, outside the [try], is modelled
      where it ends the program, in the loop of [main].
    - [cout] is not modelled as text: every member function returns the
      new state and an [Outcome] naming the message it prints.
    - [main] reads its input as the list of the words [cin >> s] would
      extract; at the end of the input an extraction fails and leaves the
      variable as it was, so the loop is run for a given number of turns.
      [std::stoi] is a parameter of the loop, [None] when it throws, which
      ends the program, as does [fs::exists] raising in [upload]. *)

From stdpp Require Import gmap strings list fin_maps sorting pretty.
From Stdlib Require Import ZArith Lia Ascii.

Local Open Scope Z_scope.

(** ** The file system *)

Inductive IOop : Type :=
  | OpCopy (from to : string)     (* fs::copy(from, to, overwrite_existing) *)
  | OpRemove (p : string).        (* fs::remove(p) *)

Record IOevent : Type := mkEvent { ev_op : IOop; ev_ok : bool }.

Record FileSys : Type := mkFS {
  files : gmap string string;     (* path -> contents *)
  io_log : list IOevent           (* calls made so far, oldest first *)
}.

(** [p / q] on [fs::path] (POSIX): an absolute [q] replaces [p]. *)
Definition is_absolute (q : string) : bool :=
  match q with
  | String c _ => bool_decide (c = "/"%char)
  | EmptyString => false
  end.

Definition path_append (p q : string) : string :=
  if is_absolute q then q else p +:+ "/" +:+ q.

Definition fs_exists (fs : FileSys) (p : string) : bool :=
  bool_decide (is_Some (files fs !! p)).

Definition fs_record (fs : FileSys) (op : IOop) (ok : bool) : FileSys :=
  {| files := files fs; io_log := io_log fs ++ [mkEvent op ok] |}.

(** The calls logged in [after] that [before] does not have yet. *)
Definition io_since (before after : FileSys) : list IOevent :=
  drop (length (io_log before)) (io_log after).

(** How a loop body that calls the file system and indexes the vector
    of nodes leaves the loop. *)
Inductive Ctl : Type :=
  | Completed        (* ran to its end *)
  | Throw            (* filesystem_error, caught by the enclosing handler *)
  | Undef.           (* nodes[i] with i outside the vector *)

(** ** Nodes *)

Record Node : Type := mkNode {
  id : Z;
  active : bool;
  directory : string
}.

(** [Node::Node(int id)] *)
Definition Node_new (i : Z) : Node :=
  {| id := i; active := true; directory := "node_" +:+ pretty i |}.

(** [Node::fail] and [Node::recover] *)
Definition fail (n : Node) : Node :=
  {| id := id n; active := false; directory := directory n |}.
Definition recover (n : Node) : Node :=
  {| id := id n; active := true; directory := directory n |}.

(** [nodes[i - 1]] *)
Definition node_at (ns : list Node) (i : Z) : option Node :=
  if 1 <=? i then ns !! Z.to_nat (i - 1) else None.

(** [node.directory / filename] *)
Definition replica_path (node : Node) (filename : string) : string :=
  path_append (directory node) filename.

(** ** The coordinator *)

Record DistributedFS : Type := mkDFS {
  nodes : list Node;
  metadata : gmap string (list Z);   (* filename -> node IDs storing it *)
  disk : FileSys                     (* the file system the object acts on *)
}.

Definition REPLICATION : Z := 3.

Inductive Outcome : Type :=
  | SourceNotFound                       (* upload: Error: File not found. *)
  | ReplicationIOError                   (* Error during ...: e.what() *)
  | InsufficientReplicas                 (* Error: Not enough active nodes *)
  | UploadSuccess (usedNodes : list Z)
  | NotFound                             (* download, delete: unknown file *)
  | DownloadSuccess (nodeID : Z)
  | AllReplicasUnavailable
  | DeleteSuccess
  | InvalidNode (i : Z)
  | NodeFailed (i : Z) (warnings : list (string * Z))
  | NodeRecovered (i : Z) (warnings : list (string * Z))
  | FileList (listing : list (string * list Z))
  | NodeStatus (rows : list (Z * bool))
  | OutOfBounds.                         (* nodes[i] outside the vector *)

(** [DistributedFS::DistributedFS(int totalNodes)], started on the file
    system [fs]. *)
Definition DistributedFS_new (totalNodes : Z) (fs : FileSys) : DistributedFS :=
  {| nodes := Node_new <$> seqZ 1 totalNodes; metadata := ∅; disk := fs |}.

(** Entries of the map in the order a range-for visits them. *)
Definition key_le (a b : string * list Z) : Prop :=
  Is_true (String.leb a.1 b.1).

Definition entries (m : gmap string (list Z)) : list (string * list Z) :=
  merge_sort key_le (map_to_list m).

(** The inner loop of [checkReplicaHealth]; [None] when an id leaves the
    vector. *)
Fixpoint count_active (ns : list Node) (nodeList : list Z) (activeCount : Z)
  : option Z :=
  match nodeList with
  | [] => Some activeCount
  | i :: rest =>
      match node_at ns i with
      | None => None
      | Some node =>
          count_active ns rest
            (if active node then activeCount + 1 else activeCount)
      end
  end.

(** The outer loop of [checkReplicaHealth]: the warnings in the order
    they are printed. *)
Fixpoint audit (ns : list Node) (es : list (string * list Z))
  : option (list (string * Z)) :=
  match es with
  | [] => Some []
  | (file, nodeList) :: rest =>
      match count_active ns nodeList 0 with
      | Some activeCount =>
          match audit ns rest with
          | Some ws =>
              Some (if activeCount <? 2 then (file, activeCount) :: ws
                    else ws)
          | None => None
          end
      | None => None
      end
  end.

Definition checkReplicaHealth (d : DistributedFS)
  : option (list (string * Z)) :=
  audit (nodes d) (entries (metadata d)).

Definition failNode (d : DistributedFS) (i : Z) : DistributedFS * Outcome :=
  if (i <? 1) || (Z.of_nat (length (nodes d)) <? i)
  then (d, InvalidNode i)
  else
    let d' := {| nodes := alter fail (Z.to_nat (i - 1)) (nodes d);
                 metadata := metadata d; disk := disk d |} in
    match checkReplicaHealth d' with
    | Some ws => (d', NodeFailed i ws)
    | None => (d', OutOfBounds)
    end.

Definition recoverNode (d : DistributedFS) (i : Z) : DistributedFS * Outcome :=
  if (i <? 1) || (Z.of_nat (length (nodes d)) <? i)
  then (d, InvalidNode i)
  else
    let d' := {| nodes := alter recover (Z.to_nat (i - 1)) (nodes d);
                 metadata := metadata d; disk := disk d |} in
    match checkReplicaHealth d' with
    | Some ws => (d', NodeRecovered i ws)
    | None => (d', OutOfBounds)
    end.

Definition listFiles (d : DistributedFS) : DistributedFS * Outcome :=
  (d, FileList (entries (metadata d))).

Definition showNodes (d : DistributedFS) : DistributedFS * Outcome :=
  (d, NodeStatus ((λ n, (id n, active n)) <$> nodes d)).

(** The commands of [main]. *)
Inductive Command : Type :=
  | CmdUpload (arg : string)
  | CmdDownload (arg : string)
  | CmdDelete (arg : string)
  | CmdList
  | CmdFail (nodeId : Z)
  | CmdRecover (nodeId : Z)
  | CmdNodes.

(** ** Vocabulary of the statements *)

(** Node ids are the positions in the vector, counted from 1. *)
Definition nodes_wf (ns : list Node) : Prop :=
  id <$> ns = seqZ 1 (Z.of_nat (length ns)).

(** Every recorded id names a node of the vector. *)
Definition replicas_in_range (d : DistributedFS) : Prop :=
  map_Forall
    (λ _ nodeList, Forall (λ i, 1 ≤ i ≤ Z.of_nat (length (nodes d))) nodeList)
    (metadata d).

#[global] Instance nodes_wf_dec ns : Decision (nodes_wf ns).
Proof. unfold nodes_wf. apply _. Defined.

#[global] Instance replicas_in_range_dec d : Decision (replicas_in_range d).
Proof. unfold replicas_in_range. apply _. Defined.

(** The node with id [i] exists and its flag is [b]. *)
Definition node_flag (ns : list Node) (i : Z) (b : bool) : Prop :=
  active <$> node_at ns i = Some b.

#[global] Instance node_flag_dec ns i b : Decision (node_flag ns i b).
Proof. unfold node_flag. apply _. Defined.

Definition is_active (n : Node) : Prop := active n = true.

#[global] Instance is_active_dec n : Decision (is_active n).
Proof. unfold is_active. apply _. Defined.

(** The active nodes, in the order of the vector. *)
Definition active_nodes (ns : list Node) : list Node := filter is_active ns.

(** How many of the recorded ids name an active node. *)
Definition live_replicas (ns : list Node) (nodeList : list Z) : Z :=
  Z.of_nat (length (filter (λ i, node_flag ns i true) nodeList)).

(** The warning the audit prints for one entry of the directory, if any. *)
Definition warning_of (ns : list Node) (e : string * list Z)
  : option (string * Z) :=
  if live_replicas ns e.2 <? 2 then Some (e.1, live_replicas ns e.2) else None.

(** The file system after copies of [c] were stored for the nodes [ns]. *)
Definition store_all (filename c : string) (ns : list Node)
    (m : gmap string string) : gmap string string :=
  foldl (λ m n, <[replica_path n filename := c]> m) m ns.

(** The file system after the paths [ps] were removed. *)
Definition remove_all (ps : list string) (m : gmap string string)
  : gmap string string :=
  foldl (λ m p, delete p m) m ps.

Definition stored (filename : string) (n : Node) : IOevent :=
  mkEvent (OpCopy filename (replica_path n filename)) true.

Definition removed (p : string) : IOevent := mkEvent (OpRemove p) true.

(** The paths of the copies the recorded ids stand for. *)
Definition recorded_paths (ns : list Node) (filename : string)
    (nodeList : list Z) : list string :=
  omap (λ i, (λ n, replica_path n filename) <$> node_at ns i) nodeList.

(** A name with no directory part: no separator in it, and not empty,
    [.] or [..]; with such a name [p / name] is an entry of the directory
    [p] itself. *)
Fixpoint has_separator (s : string) : bool :=
  match s with
  | String c s' =>
      bool_decide (c = "/"%char) || bool_decide (c = "\"%char)
      || has_separator s'
  | EmptyString => false
  end.

Definition plain_name (s : string) : Prop :=
  has_separator s = false ∧ s ≠ "" ∧ s ≠ "." ∧ s ≠ "..".

#[global] Instance plain_name_dec s : Decision (plain_name s).
Proof. unfold plain_name. apply _. Defined.

#[global] Instance Node_eq_dec : EqDecision Node.
Proof. solve_decision. Defined.

(** Every node keeps the directory its constructor gave it. *)
Definition dirs_wf (ns : list Node) : Prop :=
  Forall (λ n, directory n = "node_" +:+ pretty (id n)) ns.

#[global] Instance dirs_wf_dec ns : Decision (dirs_wf ns).
Proof. unfold dirs_wf. apply _. Defined.

(** The recorded replica sets have [REPLICATION] ids each, in strictly
    ascending order. *)
Definition replica_sets_wf (d : DistributedFS) : Prop :=
  map_Forall
    (λ _ nodeList, length nodeList = Z.to_nat REPLICATION ∧
                   StronglySorted Z.lt nodeList)
    (metadata d).

(** ** A cluster of four nodes, for the examples *)

(** A file system that never raises, and one whose call number [k]
    raises. *)
Definition never : nat → IOop → bool := λ _ _, false.

(** [fs::exists] raises for no name. *)
Definition probes_return : nat → string → bool := λ _ _, false.
Definition raises_at (k : nat) : nat → IOop → bool :=
  λ j _, bool_decide (j = k).

(** The working directory holds [a.txt]; nothing was called yet. *)
Definition local_disk : FileSys :=
  {| files := {[ "a.txt" := "hello" ]}; io_log := [] |}.

(** [DistributedFS dfs(4)] as in [main]. *)
Definition cluster4 : DistributedFS := DistributedFS_new 4 local_disk.

(** A directory entry recorded in the order 2, 1, 3, with node 2 down. *)
Definition shuffled : DistributedFS :=
  {| nodes := [mkNode 1 true "node_1"; mkNode 2 false "node_2";
               mkNode 3 true "node_3"; mkNode 4 true "node_4"];
     metadata := {[ "a.txt" := [2; 1; 3] ]};
     disk := {| files := {[ "a.txt" := "hello"; "node_1/a.txt" := "one";
                            "node_2/a.txt" := "two";
                            "node_3/a.txt" := "three" ]};
                io_log := [] |} |}.

(** ** The command loop of [main]: input and output *)

(** What one turn of the loop prints: the message of the member function
    it called, or [Invalid command.] *)
Inductive Line : Type :=
  | Ran (o : Outcome)
  | InvalidCommand.

(** How [main] stands after some turns of [while (true)]. *)
Inductive MainResult : Type :=
  | Exited (dfs : DistributedFS) (out : list Line)    (* break; return 0 *)
  | Aborted (dfs : DistributedFS) (out : list Line)   (* uncaught throw *)
  | Running (dfs : DistributedFS) (out : list Line).  (* still looping *)

(** What was printed so far, whatever way [main] stands. *)
Definition printed (r : MainResult) : list Line :=
  match r with
  | Exited _ out | Aborted _ out | Running _ out => out
  end.


(** [cin >> var] on the words left in the input: at the end of the input
    the extraction fails and leaves [var] as it was. *)
Definition cin_read (input : list string) (var : string)
  : string * list string :=
  match input with
  | [] => (var, [])
  | word :: rest => (word, rest)
  end.

(** The words that spell a command, node ids written by [show]. *)
Definition words_of (show : Z → string) (c : Command) : list string :=
  match c with
  | CmdUpload arg => ["upload"; arg]
  | CmdDownload arg => ["download"; arg]
  | CmdDelete arg => ["delete"; arg]
  | CmdList => ["list"]
  | CmdFail nodeId => ["fail"; show nodeId]
  | CmdRecover nodeId => ["recover"; show nodeId]
  | CmdNodes => ["nodes"]
  end.

(** The node ids a command names. *)
Definition node_args (c : Command) : list Z :=
  match c with
  | CmdFail nodeId | CmdRecover nodeId => [nodeId]
  | _ => []
  end.

(** The file name a command uploads. *)
Definition upload_args (c : Command) : list string :=
  match c with
  | CmdUpload arg => [arg]
  | _ => []
  end.

(** [std::stoi] of the C++ library, for the examples (the loop below takes
    it as a parameter): leading white space, an optional sign, then the
    longest run of decimal digits; no digit at all, or a value that does
    not fit [int], throws (here [None]). *)
Definition is_space (c : ascii) : bool :=
  let n := N_of_ascii c in ((9 <=? n) && (n <=? 13))%N || (n =? 32)%N.

Definition digit_value (c : ascii) : option Z :=
  let n := Z.of_N (N_of_ascii c) in
  if (48 <=? n) && (n <=? 57) then Some (n - 48) else None.

Fixpoint skip_space (s : string) : string :=
  match s with
  | String c s' => if is_space c then skip_space s' else s
  | EmptyString => s
  end.

Fixpoint read_digits (s : string) (acc : Z) : Z :=
  match s with
  | String c s' =>
      match digit_value c with
      | Some v => read_digits s' (10 * acc + v)
      | None => acc
      end
  | EmptyString => acc
  end.

Definition decimal_stoi (s : string) : option Z :=
  let s := skip_space s in
  let '(negative, s) :=
    match s with
    | String "-" s' => (true, s')
    | String "+" s' => (false, s')
    | _ => (false, s)
    end in
  match s with
  | String c _ =>
      match digit_value c with
      | Some _ =>
          let v := read_digits s 0 in
          let v := if negative then - v else v in
          if (- 2 ^ 31 <=? v) && (v <=? 2 ^ 31 - 1) then Some v else None
      | None => None
      end
  | EmptyString => None
  end.

Section Coordinator.

(** The environment: does the call [op], made after [k] earlier calls,
    raise [filesystem_error]? *)
Variable io_fault : nat → IOop → bool.

(** [fs::copy(from, to, overwrite_existing)]: the new file system and
    whether the call returned (rather than raised). *)
Definition fs_copy (fs : FileSys) (from to : string) : FileSys * bool :=
  let op := OpCopy from to in
  match files fs !! from with
  | Some c =>
      if io_fault (length (io_log fs)) op then (fs_record fs op false, false)
      else ({| files := <[to := c]> (files fs);
               io_log := io_log fs ++ [mkEvent op true] |}, true)
  | None => (fs_record fs op false, false)
  end.

(** [fs::remove(p)]: removing a missing file is not an error. *)
Definition fs_remove (fs : FileSys) (p : string) : FileSys * bool :=
  let op := OpRemove p in
  if io_fault (length (io_log fs)) op then (fs_record fs op false, false)
  else ({| files := delete p (files fs);
           io_log := io_log fs ++ [mkEvent op true] |}, true).

(** The loop of [upload] over [nodes], from the node list [ns] on; [None]
    when a copy raised. *)
Fixpoint upload_scan (filename : string) (ns : list Node) (fs : FileSys)
    (usedNodes : list Z) (replicated : Z) : FileSys * option (list Z * Z) :=
  match ns with
  | [] => (fs, Some (usedNodes, replicated))
  | node :: rest =>
      let '(fs1, body) :=
        if active node then
          let '(fs', ok) := fs_copy fs filename (replica_path node filename) in
          if ok then (fs', Some (usedNodes ++ [id node], replicated + 1))
          else (fs', None)
        else (fs, Some (usedNodes, replicated)) in
      match body with
      | Some (usedNodes1, replicated1) =>
          if replicated1 =? REPLICATION
          then (fs1, Some (usedNodes1, replicated1))
          else upload_scan filename rest fs1 usedNodes1 replicated1
      | None => (fs1, None)
      end
  end.

Definition upload (d : DistributedFS) (filename : string)
  : DistributedFS * Outcome :=
  if negb (fs_exists (disk d) filename) then (d, SourceNotFound)
  else
    let '(fs', r) := upload_scan filename (nodes d) (disk d) [] 0 in
    let d' := {| nodes := nodes d; metadata := metadata d; disk := fs' |} in
    match r with
    | Some (usedNodes, replicated) =>
        if replicated <? REPLICATION then (d', InsufficientReplicas)
        else ({| nodes := nodes d;
                 metadata := <[filename := usedNodes]> (metadata d);
                 disk := fs' |}, UploadSuccess usedNodes)
    | None => (d', ReplicationIOError)
    end.

(** The loop of [download] over [metadata[filename]]. *)
Fixpoint download_scan (filename : string) (ns : list Node)
    (nodeList : list Z) (fs : FileSys) : FileSys * Outcome :=
  match nodeList with
  | [] => (fs, AllReplicasUnavailable)
  | nodeID :: rest =>
      match node_at ns nodeID with
      | None => (fs, OutOfBounds)
      | Some node =>
          if active node then
            let '(fs', ok) :=
              fs_copy fs (replica_path node filename)
                      ("downloaded_" +:+ filename) in
            (fs', if ok then DownloadSuccess nodeID else ReplicationIOError)
          else download_scan filename ns rest fs
      end
  end.

Definition download (d : DistributedFS) (filename : string)
  : DistributedFS * Outcome :=
  match metadata d !! filename with
  | None => (d, NotFound)
  | Some nodeList =>
      let '(fs', out) := download_scan filename (nodes d) nodeList (disk d) in
      ({| nodes := nodes d; metadata := metadata d; disk := fs' |}, out)
  end.

(** The loop of [deleteFile] over [metadata[filename]]. *)
Fixpoint delete_scan (filename : string) (ns : list Node)
    (nodeList : list Z) (fs : FileSys) : FileSys * Ctl :=
  match nodeList with
  | [] => (fs, Completed)
  | nodeID :: rest =>
      match node_at ns nodeID with
      | None => (fs, Undef)
      | Some node =>
          let '(fs', ok) := fs_remove fs (replica_path node filename) in
          if ok then delete_scan filename ns rest fs' else (fs', Throw)
      end
  end.

Definition deleteFile (d : DistributedFS) (filename : string)
  : DistributedFS * Outcome :=
  match metadata d !! filename with
  | None => (d, NotFound)
  | Some nodeList =>
      let '(fs', r) := delete_scan filename (nodes d) nodeList (disk d) in
      let d' := {| nodes := nodes d; metadata := metadata d; disk := fs' |} in
      match r with
      | Completed =>
          ({| nodes := nodes d; metadata := delete filename (metadata d);
              disk := fs' |}, DeleteSuccess)
      | Throw => (d', ReplicationIOError)
      | Undef => (d', OutOfBounds)
      end
  end.

(** One turn of the command loop of [main], and a whole session. *)
Definition exec (d : DistributedFS) (c : Command) : DistributedFS * Outcome :=
  match c with
  | CmdUpload arg => upload d arg
  | CmdDownload arg => download d arg
  | CmdDelete arg => deleteFile d arg
  | CmdList => listFiles d
  | CmdFail nodeId => failNode d nodeId
  | CmdRecover nodeId => recoverNode d nodeId
  | CmdNodes => showNodes d
  end.

Definition run (d : DistributedFS) (cs : list Command) : DistributedFS :=
  foldl (λ d c, (exec d c).1) d cs.

(** The messages a session prints, one for each command. *)
Fixpoint run_out (d : DistributedFS) (cs : list Command) : list Outcome :=
  match cs with
  | [] => []
  | c :: cs => (exec d c).2 :: run_out (exec d c).1 cs
  end.

(** [std::stoi], [None] when it throws. *)
Variable stoi : string → option Z.

(** Does [fs::exists(name)] at the head of [upload], outside its [try],
    raise (an error other than the file not being there) in the turn
    that follows [k] printed lines?  The exception leaves [upload] and
    [main] uncaught and ends the program. *)
Variable exists_fault : nat → string → bool.

(** [fuel] turns of the loop of [main], from the variables [cmd], [arg]
    and [dfs] and the words still to be read. *)
Fixpoint main_loop (fuel : nat) (input : list string) (cmd arg : string)
    (dfs : DistributedFS) (out : list Line) : MainResult :=
  match fuel with
  | O => Running dfs out
  | S fuel =>
      let '(cmd, input) := cin_read input cmd in
      if decide (cmd = "upload") then
        let '(arg, input) := cin_read input arg in
        if exists_fault (length out) arg then Aborted dfs out
        else
          let '(dfs, o) := upload dfs arg in
          main_loop fuel input cmd arg dfs (out ++ [Ran o])
      else if decide (cmd = "download") then
        let '(arg, input) := cin_read input arg in
        let '(dfs, o) := download dfs arg in
        main_loop fuel input cmd arg dfs (out ++ [Ran o])
      else if decide (cmd = "delete") then
        let '(arg, input) := cin_read input arg in
        let '(dfs, o) := deleteFile dfs arg in
        main_loop fuel input cmd arg dfs (out ++ [Ran o])
      else if decide (cmd = "list") then
        let '(dfs, o) := listFiles dfs in
        main_loop fuel input cmd arg dfs (out ++ [Ran o])
      else if decide (cmd = "fail") then
        let '(arg, input) := cin_read input arg in
        match stoi arg with
        | Some nodeId =>
            let '(dfs, o) := failNode dfs nodeId in
            main_loop fuel input cmd arg dfs (out ++ [Ran o])
        | None => Aborted dfs out
        end
      else if decide (cmd = "recover") then
        let '(arg, input) := cin_read input arg in
        match stoi arg with
        | Some nodeId =>
            let '(dfs, o) := recoverNode dfs nodeId in
            main_loop fuel input cmd arg dfs (out ++ [Ran o])
        | None => Aborted dfs out
        end
      else if decide (cmd = "nodes") then
        let '(dfs, o) := showNodes dfs in
        main_loop fuel input cmd arg dfs (out ++ [Ran o])
      else if decide (cmd = "exit") then Exited dfs out
      else main_loop fuel input cmd arg dfs (out ++ [InvalidCommand])
  end.

(** [main], run for [fuel] turns on the file system [fs]. *)
Definition main (fuel : nat) (input : list string) (fs : FileSys)
  : MainResult :=
  main_loop fuel input "" "" (DistributedFS_new 4 fs) [].

(** ** The file system calls *)

Lemma fs_copy_true fs from to fs' :
  fs_copy fs from to = (fs', true) →
  ∃ c, files fs !! from = Some c ∧
       io_fault (length (io_log fs)) (OpCopy from to) = false ∧
       files fs' = <[to := c]> (files fs) ∧
       io_log fs' = io_log fs ++ [mkEvent (OpCopy from to) true].
Proof.
  unfold fs_copy. destruct (files fs !! from) as [c|] eqn:Hc; [|discriminate].
  destruct (io_fault _ _) eqn:Hf; [discriminate|].
  intros [= <-]. by exists c.
Qed.

Lemma fs_copy_false fs from to fs' :
  fs_copy fs from to = (fs', false) →
  files fs' = files fs ∧
  io_log fs' = io_log fs ++ [mkEvent (OpCopy from to) false].
Proof.
  unfold fs_copy. destruct (files fs !! from); [destruct (io_fault _ _)|];
    intros [= <-]; done.
Qed.

Lemma fs_remove_true fs p fs' :
  fs_remove fs p = (fs', true) →
  files fs' = delete p (files fs) ∧ io_log fs' = io_log fs ++ [removed p].
Proof.
  unfold fs_remove. destruct (io_fault _ _); intros [= <-]; done.
Qed.

Lemma fs_remove_false fs p fs' :
  fs_remove fs p = (fs', false) →
  files fs' = files fs ∧
  io_log fs' = io_log fs ++ [mkEvent (OpRemove p) false].
Proof.
  unfold fs_remove. destruct (io_fault _ _); intros [= <-]; done.
Qed.

Lemma io_since_app fs fs' l :
  io_log fs' = io_log fs ++ l → io_since fs fs' = l.
Proof. unfold io_since. intros ->. by rewrite drop_app_length. Qed.

Lemma io_since_refl fs : io_since fs fs = [].
Proof. unfold io_since. apply drop_all. Qed.

(** ** The loop of [upload] *)

Lemma active_nodes_cons_true n ns :
  active n = true → active_nodes (n :: ns) = n :: active_nodes ns.
Proof. intros H. unfold active_nodes. by rewrite filter_cons_True. Qed.

Lemma active_nodes_cons_false n ns :
  active n = false → active_nodes (n :: ns) = active_nodes ns.
Proof.
  intros H. unfold active_nodes. rewrite filter_cons_False; [done|].
  unfold is_active. congruence.
Qed.

Lemma upload_scan_spec f c ns : ∀ fs used r fs' res,
  files fs !! f = Some c → 0 ≤ r < REPLICATION →
  upload_scan f ns fs used r = (fs', res) →
  match res with
  | Some (u, r') =>
      let placed := take (Z.to_nat (REPLICATION - r)) (active_nodes ns) in
      u = used ++ (id <$> placed) ∧ r' = r + Z.of_nat (length placed) ∧
      files fs' = store_all f c placed (files fs) ∧
      io_log fs' = io_log fs ++ (stored f <$> placed)
  | None =>
      ∃ pre n post, ns = pre ++ n :: post ∧ active n = true ∧
        Z.of_nat (length (active_nodes pre)) < REPLICATION - r ∧
        files fs' = store_all f c (active_nodes pre) (files fs) ∧
        io_log fs' = io_log fs ++ (stored f <$> active_nodes pre)
                       ++ [mkEvent (OpCopy f (replica_path n f)) false]
  end.
Proof.
  induction ns as [|n ns IH]; intros fs used r fs' res Hc Hr; simpl.
  - intros [= <- <-]. change (active_nodes []) with (@nil Node).
    rewrite take_nil. simpl. rewrite !app_nil_r. split_and!; [done|lia|done|done].
  - destruct (active n) eqn:Hn.
    + destruct (fs_copy fs f (replica_path n f)) as [fs1 [|]] eqn:Hcp.
      * apply fs_copy_true in Hcp as (c' & Hc' & _ & Hfiles & Hlog).
        assert (c' = c) as -> by congruence.
        rewrite active_nodes_cons_true by done.
        replace (Z.to_nat (REPLICATION - r))
          with (S (Z.to_nat (REPLICATION - (r + 1)))) by (unfold REPLICATION in *; lia).
        destruct (r + 1 =? REPLICATION) eqn:Hfull.
        -- intros [= <- <-]. apply Z.eqb_eq in Hfull.
           replace (Z.to_nat (REPLICATION - (r + 1))) with 0%nat by lia.
           simpl. rewrite ?take_0. simpl. split_and!; [done|lia|done|done].
        -- intros Hscan. apply Z.eqb_neq in Hfull.
           eapply (IH fs1) in Hscan; [| |lia].
           2:{ rewrite Hfiles. destruct (decide (replica_path n f = f)) as [->|Hne].
               - by rewrite lookup_insert_eq.
               - by rewrite lookup_insert_ne. }
           destruct res as [[u r']|].
           ++ destruct Hscan as (-> & -> & Hf' & Hl'). simpl.
              rewrite <- app_assoc. simpl.
              split_and!; [done|lia| |].
              ** rewrite Hf', Hfiles. done.
              ** rewrite Hl', Hlog, <- app_assoc. done.
           ++ destruct Hscan as (pre & n' & post & -> & Hn' & Hlen & Hf' & Hl').
              exists (n :: pre), n', post.
              rewrite active_nodes_cons_true by done. simpl.
              split_and!; [done|done|lia| |].
              ** rewrite Hf', Hfiles. done.
              ** rewrite Hl', Hlog, <- app_assoc. done.
      * intros [= <- <-]. apply fs_copy_false in Hcp as [Hfiles Hlog].
        exists [], n, ns. simpl. split_and!; [done|done|lia|done|done].
    + rewrite active_nodes_cons_false by done.
      replace (r =? REPLICATION) with false by (symmetry; apply Z.eqb_neq; lia).
      intros Hscan. eapply IH in Hscan; [|done|done].
      destruct res as [[u r']|]; [done|].
      destruct Hscan as (pre & n' & post & -> & Hn' & Hlen & Hf' & Hl').
      exists (n :: pre), n', post.
      rewrite active_nodes_cons_false by done. done.
Qed.

(** What [upload] does, case by case. *)
Lemma upload_cases d f d' out :
  upload d f = (d', out) →
  nodes d' = nodes d ∧
  ((files (disk d) !! f = None ∧ d' = d ∧ out = SourceNotFound) ∨
   ∃ c, files (disk d) !! f = Some c ∧
     ((REPLICATION ≤ Z.of_nat (length (active_nodes (nodes d))) ∧
       let placed := take (Z.to_nat REPLICATION) (active_nodes (nodes d)) in
       out = UploadSuccess (id <$> placed) ∧
       metadata d' = <[f := id <$> placed]> (metadata d) ∧
       files (disk d') = store_all f c placed (files (disk d)) ∧
       io_log (disk d') = io_log (disk d) ++ (stored f <$> placed)) ∨
      (Z.of_nat (length (active_nodes (nodes d))) < REPLICATION ∧
       out = InsufficientReplicas ∧
       metadata d' = metadata d ∧
       files (disk d') = store_all f c (active_nodes (nodes d)) (files (disk d)) ∧
       io_log (disk d') =
         io_log (disk d) ++ (stored f <$> active_nodes (nodes d))) ∨
      (out = ReplicationIOError ∧
       metadata d' = metadata d ∧
       ∃ pre n post, nodes d = pre ++ n :: post ∧ active n = true ∧
         Z.of_nat (length (active_nodes pre)) < REPLICATION ∧
         files (disk d') = store_all f c (active_nodes pre) (files (disk d)) ∧
         io_log (disk d') =
           io_log (disk d) ++ (stored f <$> active_nodes pre)
             ++ [mkEvent (OpCopy f (replica_path n f)) false]))).
Proof.
  unfold upload, fs_exists.
  destruct (files (disk d) !! f) as [c|] eqn:Hc.
  2:{ rewrite bool_decide_eq_false_2 by (intros [? ?]; done). simpl.
      intros [= <- <-]. split; [done|]. left. done. }
  rewrite bool_decide_eq_true_2 by eauto. simpl.
  destruct (upload_scan f (nodes d) (disk d) [] 0) as [fs' res] eqn:Hscan.
  eapply upload_scan_spec in Hscan; [|done|unfold REPLICATION; lia].
  destruct res as [[u r']|].
  - simpl in Hscan. rewrite Z.sub_0_r in Hscan.
    destruct Hscan as (-> & -> & Hfiles & Hlog).
    pose proof (length_take (active_nodes (nodes d)) (Z.to_nat REPLICATION))
      as Hlen.
    destruct (0 + _ <? REPLICATION) eqn:Hlt.
    + apply Z.ltb_lt in Hlt. intros [= <- <-]. simpl. split; [done|].
      right. exists c. split; [done|]. right. left.
      assert (Z.of_nat (length (active_nodes (nodes d))) < REPLICATION)
        as Hfew by (unfold REPLICATION in *; lia).
      rewrite take_ge in Hfiles, Hlog by (unfold REPLICATION in *; lia).
      done.
    + apply Z.ltb_ge in Hlt. intros [= <- <-]. simpl. split; [done|].
      right. exists c. split; [done|]. left.
      split; [unfold REPLICATION in *; lia|]. done.
  - intros [= <- <-]. simpl. split; [done|]. right. exists c. split; [done|].
    right. right. split; [done|]. split; [done|].
    destruct Hscan as (pre & n & post & ? & ? & ? & ? & ?).
    exists pre, n, post. split_and!; [done|done|lia|done|done].
Qed.

(** ** Node ids and positions *)

Lemma node_at_Some ns i n :
  node_at ns i = Some n →
  1 ≤ i ≤ Z.of_nat (length ns) ∧ ns !! Z.to_nat (i - 1) = Some n.
Proof.
  unfold node_at. destruct (1 <=? i) eqn:Hi; [|discriminate].
  apply Z.leb_le in Hi. intros Hn. split; [|done].
  apply lookup_lt_Some in Hn. lia.
Qed.

Lemma node_at_in_range ns i :
  1 ≤ i ≤ Z.of_nat (length ns) → is_Some (node_at ns i).
Proof.
  intros Hi. unfold node_at.
  replace (1 <=? i) with true by (symmetry; apply Z.leb_le; lia).
  apply lookup_lt_is_Some. lia.
Qed.

Lemma nodes_wf_lookup ns k n :
  nodes_wf ns → ns !! k = Some n → id n = Z.of_nat k + 1.
Proof.
  intros Hwf Hk. assert ((id <$> ns) !! k = Some (id n)) as Hid
    by (by rewrite list_lookup_fmap, Hk).
  rewrite Hwf in Hid. apply lookup_seqZ in Hid as [-> _]. lia.
Qed.

Lemma node_at_id ns i n : nodes_wf ns → node_at ns i = Some n → id n = i.
Proof.
  intros Hwf Hn. apply node_at_Some in Hn as [Hi Hn].
  apply (nodes_wf_lookup _ _ _ Hwf) in Hn. lia.
Qed.

Lemma node_at_elem ns n : nodes_wf ns → n ∈ ns → node_at ns (id n) = Some n.
Proof.
  intros Hwf [k Hk]%list_elem_of_lookup.
  rewrite (nodes_wf_lookup _ _ _ Hwf Hk). unfold node_at. replace (1 <=? Z.of_nat k + 1) with true
    by (symmetry; apply Z.leb_le; lia).
  replace (Z.to_nat (Z.of_nat k + 1 - 1)) with k by lia. done.
Qed.

(** The active node ids are exactly the ids of [active_nodes]. *)
Lemma node_flag_active_nodes ns i :
  nodes_wf ns → node_flag ns i true ↔ i ∈ id <$> active_nodes ns.
Proof.
  intros Hwf. unfold node_flag, active_nodes. rewrite list_elem_of_fmap. split.
  - destruct (node_at ns i) as [n|] eqn:Hn; [|discriminate].
    simpl. intros [= Ha]. exists n. split.
    + symmetry. by eapply node_at_id.
    + apply list_elem_of_filter. split; [done|].
      apply node_at_Some in Hn as [_ Hn]. by eapply list_elem_of_lookup_2.
  - intros (n & -> & [Ha Hn]%list_elem_of_filter).
    rewrite (node_at_elem _ _ Hwf Hn). simpl. by rewrite Ha.
Qed.

(** Ids counted from [b]: the invariant of a suffix of the vector. *)
Lemma ids_from_sorted b ns :
  (∀ k n, ns !! k = Some n → id n = b + Z.of_nat k) →
  StronglySorted Z.lt (id <$> active_nodes ns) ∧
  Forall (λ i, b ≤ i) (id <$> active_nodes ns).
Proof.
  revert b. induction ns as [|n ns IH]; intros b Hb.
  - split; constructor.
  - destruct (IH (b + 1)) as [Hs Hf].
    { intros k m Hk. rewrite (Hb (S k) m Hk). lia. }
    pose proof (Hb 0%nat n eq_refl) as Hn.
    destruct (active n) eqn:Ha.
    + rewrite active_nodes_cons_true by done. simpl. split.
      * constructor; [done|]. eapply Forall_impl; [exact Hf|].
        simpl. intros. lia.
      * constructor; [lia|]. eapply Forall_impl; [exact Hf|].
        simpl. intros. lia.
    + rewrite active_nodes_cons_false by done. split; [done|].
      eapply Forall_impl; [exact Hf|]. simpl. intros. lia.
Qed.

Lemma active_ids_sorted ns :
  nodes_wf ns → StronglySorted Z.lt (id <$> active_nodes ns).
Proof.
  intros Hwf. apply (ids_from_sorted 1). intros k n Hk.
  rewrite (nodes_wf_lookup _ _ _ Hwf Hk). lia.
Qed.

Lemma StronglySorted_lt_NoDup (l : list Z) : StronglySorted Z.lt l → NoDup l.
Proof.
  induction 1 as [|x l Hs IH Hx]; constructor; [|done].
  intros Hin. rewrite Forall_forall in Hx. specialize (Hx _ Hin). lia.
Qed.

Lemma store_all_keeps f c placed m p :
  m !! p = Some c → store_all f c placed m !! p = Some c.
Proof.
  revert m. induction placed as [|n placed IH]; intros m Hm; [done|].
  simpl. apply IH. destruct (decide (replica_path n f = p)) as [->|Hne].
  - by rewrite lookup_insert_eq.
  - by rewrite lookup_insert_ne.
Qed.

Lemma store_all_lookup f c placed m n :
  n ∈ placed → store_all f c placed m !! replica_path n f = Some c.
Proof.
  revert m. induction placed as [|n' placed IH]; intros m Hin.
  - by apply not_elem_of_nil in Hin.
  - simpl. apply elem_of_cons in Hin as [->|Hin]; [|by apply IH].
    apply store_all_keeps. by rewrite lookup_insert_eq.
Qed.

Lemma stored_all_ok f placed :
  Forall (λ e, ev_ok e = true) (stored f <$> placed).
Proof. apply Forall_fmap, Forall_true. done. Qed.

(** ** Upload *)

(** C2: when the source exists, at least [REPLICATION] nodes are active
    and every store call of the upload returns, the upload succeeds and
    commits exactly three ids, pairwise distinct, in ascending order, each
    of an active node, and each smaller than every other active id. *)
Theorem upload_places_three_lowest d f :
  nodes_wf (nodes d) →
  fs_exists (disk d) f = true →
  REPLICATION ≤ Z.of_nat (length (active_nodes (nodes d))) →
  Forall (λ e, ev_ok e = true) (io_since (disk d) (disk (upload d f).1)) →
  ∃ used,
    (upload d f).2 = UploadSuccess used ∧
    metadata (upload d f).1 = <[f := used]> (metadata d) ∧
    Z.of_nat (length used) = REPLICATION ∧
    NoDup used ∧
    StronglySorted Z.lt used ∧
    (∀ i, i ∈ used → node_flag (nodes d) i true) ∧
    (∀ i j, i ∈ used → node_flag (nodes d) j true → j ∉ used → i < j).
Proof.
  intros Hwf Hsrc Hmany Hok.
  destruct (upload d f) as [d' out] eqn:Hup. simpl in *.
  apply upload_cases in Hup as [_ [(Hnone & _)|(c & Hc & Hcase)]].
  { unfold fs_exists in Hsrc. apply bool_decide_eq_true in Hsrc as [? ?].
    congruence. }
  destruct Hcase as [(_ & Hsucc)|[(Hfew & _)|(_ & _ & Hio)]]; [|lia|].
  2:{ destruct Hio as (pre & n & post & _ & _ & _ & _ & Hlog).
      apply io_since_app in Hlog. rewrite Hlog in Hok.
      apply Forall_app in Hok as [_ Hbad]. by inv Hbad. }
  simpl in Hsucc. destruct Hsucc as (-> & Hmeta & _ & _).
  set (A := active_nodes (nodes d)) in *.
  pose proof (active_ids_sorted _ Hwf) as Hsorted. fold A in Hsorted.
  rewrite <- (take_drop (Z.to_nat REPLICATION) A), fmap_app in Hsorted.
  apply StronglySorted_app in Hsorted as (Hlow & Hs1 & _).
  exists (id <$> take (Z.to_nat REPLICATION) A). split_and!; try done.
  - rewrite length_fmap, length_take. unfold REPLICATION in *. lia.
  - by apply StronglySorted_lt_NoDup.
  - intros i Hi. apply node_flag_active_nodes; [done|]. fold A.
    rewrite <- (take_drop (Z.to_nat REPLICATION) A), fmap_app.
    apply elem_of_app. by left.
  - intros i j Hi Hj Hnot. apply Hlow; [done|].
    apply node_flag_active_nodes in Hj; [|done]. fold A in Hj.
    rewrite <- (take_drop (Z.to_nat REPLICATION) A), fmap_app in Hj.
    apply elem_of_app in Hj as [Hj|Hj]; done.
Qed.

(** C3, as amended: with fewer than [REPLICATION] active nodes an upload
    leaves the directory mapping exactly as it was, and it reports
    [InsufficientReplicas] when moreover the source exists and every store
    call of the upload returns. *)
Theorem upload_few_active_keeps_directory d f :
  Z.of_nat (length (active_nodes (nodes d))) < REPLICATION →
  metadata (upload d f).1 = metadata d ∧
  (fs_exists (disk d) f = true →
   Forall (λ e, ev_ok e = true) (io_since (disk d) (disk (upload d f).1)) →
   (upload d f).2 = InsufficientReplicas).
Proof.
  intros Hfew. destruct (upload d f) as [d' out] eqn:Hup. simpl.
  apply upload_cases in Hup as [_ [(Hnone & -> & _)|(c & Hc & Hcase)]].
  { split; [done|]. unfold fs_exists. intros [? ?]%bool_decide_eq_true.
    congruence. }
  destruct Hcase as [(Hmany & _)|[(_ & -> & Hmeta & _)|(_ & Hmeta & Hio)]];
    [lia|done|].
  split; [done|]. intros _ Hok.
  destruct Hio as (pre & n & post & _ & _ & _ & _ & Hlog).
  apply io_since_app in Hlog. rewrite Hlog in Hok.
  apply Forall_app in Hok as [_ Hbad]. by inv Hbad.
Qed.

(** C5: when a store call of an upload raises, the upload reports
    [ReplicationIOError] and the directory is unchanged; the failing call
    is the last call made, every call before it is a copy onto an active
    node scanned earlier, no removal is issued, and those copies are on
    the file system afterwards. *)
Theorem upload_store_failure_aborts d f :
  Exists (λ e, ev_ok e = false) (io_since (disk d) (disk (upload d f).1)) →
  (upload d f).2 = ReplicationIOError ∧
  metadata (upload d f).1 = metadata d ∧
  ∃ c pre n post,
    files (disk d) !! f = Some c ∧
    nodes d = pre ++ n :: post ∧ active n = true ∧
    io_since (disk d) (disk (upload d f).1) =
      (stored f <$> active_nodes pre)
        ++ [mkEvent (OpCopy f (replica_path n f)) false] ∧
    files (disk (upload d f).1) =
      store_all f c (active_nodes pre) (files (disk d)) ∧
    (∀ m, m ∈ pre → active m = true →
          files (disk (upload d f).1) !! replica_path m f = Some c).
Proof.
  intros Hbad. destruct (upload d f) as [d' out] eqn:Hup. simpl in *.
  apply upload_cases in Hup as [_ [(_ & -> & _)|(c & Hc & Hcase)]].
  { rewrite io_since_refl in Hbad. by inv Hbad. }
  destruct Hcase as [(_ & Hsucc)|[(_ & _ & _ & _ & Hlog)|(-> & Hmeta & Hio)]].
  - simpl in Hsucc. destruct Hsucc as (_ & _ & _ & Hlog).
    apply io_since_app in Hlog. rewrite Hlog in Hbad.
    apply Exists_exists in Hbad as (e & He & Hfalse).
    pose proof (stored_all_ok f (take (Z.to_nat REPLICATION)
                                      (active_nodes (nodes d)))) as Hall.
    rewrite Forall_forall in Hall. apply Hall in He. congruence.
  - apply io_since_app in Hlog. rewrite Hlog in Hbad.
    apply Exists_exists in Hbad as (e & He & Hfalse).
    pose proof (stored_all_ok f (active_nodes (nodes d))) as Hall.
    rewrite Forall_forall in Hall. apply Hall in He. congruence.
  - split; [done|]. split; [done|].
    destruct Hio as (pre & n & post & Hns & Hn & _ & Hfiles & Hlog).
    exists c, pre, n, post. split_and!; try done.
    + by apply io_since_app.
    + intros m Hm Ha. rewrite Hfiles. apply store_all_lookup.
      apply list_elem_of_filter. done.
Qed.

(** C10, as amended: an upload whose source is a regular file, with
    contents [c], and which is rejected with [InsufficientReplicas] has
    copied the source onto every active node and leaves those copies in
    place, issuing no removal; the directory is exactly as before the
    call. *)
Theorem upload_rejected_leaves_copies d f c :
  files (disk d) !! f = Some c →
  (upload d f).2 = InsufficientReplicas →
  metadata (upload d f).1 = metadata d ∧
  io_since (disk d) (disk (upload d f).1) =
    stored f <$> active_nodes (nodes d) ∧
  files (disk (upload d f).1) =
    store_all f c (active_nodes (nodes d)) (files (disk d)) ∧
  (∀ n, n ∈ nodes d → active n = true →
        files (disk (upload d f).1) !! replica_path n f = Some c).
Proof.
  intros Hsrc. destruct (upload d f) as [d' out] eqn:Hup. simpl. intros ->.
  apply upload_cases in Hup as [_ [(_ & _ & ?)|(c' & Hc & Hcase)]]; [done|].
  assert (c' = c) as -> by congruence.
  destruct Hcase as [(_ & Hsucc)|[(_ & _ & Hmeta & Hfiles & Hlog)|(? & _)]];
    [by destruct Hsucc| |done].
  split_and!; try done.
  - by apply io_since_app.
  - intros n Hn Ha. rewrite Hfiles. apply store_all_lookup.
    apply list_elem_of_filter. done.
Qed.

(** ** Download *)

Lemma download_scan_skip f ns pre rest fs :
  Forall (λ j, node_flag ns j false) pre →
  download_scan f ns (pre ++ rest) fs = download_scan f ns rest fs.
Proof.
  induction 1 as [|j pre Hj _ IH]; [done|].
  simpl. unfold node_flag in Hj.
  destruct (node_at ns j) as [n|]; [|discriminate].
  simpl in Hj. injection Hj as ->. done.
Qed.

Lemma download_scan_spec f ns nodeList fs fs' out :
  download_scan f ns nodeList fs = (fs', out) →
  (∃ pre i n post ok,
      nodeList = pre ++ i :: post ∧
      Forall (λ j, node_flag ns j false) pre ∧
      node_at ns i = Some n ∧ active n = true ∧
      fs_copy fs (replica_path n f) ("downloaded_" +:+ f) = (fs', ok) ∧
      out = (if ok then DownloadSuccess i else ReplicationIOError)) ∨
  (fs' = fs ∧ (out = AllReplicasUnavailable ∨ out = OutOfBounds)).
Proof.
  induction nodeList as [|j rest IH]; simpl.
  - intros [= <- <-]. right. eauto.
  - destruct (node_at ns j) as [n|] eqn:Hn.
    2:{ intros [= <- <-]. right. eauto. }
    destruct (active n) eqn:Ha.
    + destruct (fs_copy _ _ _) as [fs1 ok] eqn:Hcp. intros [= <- <-].
      left. exists [], j, n, rest, ok. done.
    + intros [(pre & i & m & post & ok & -> & Hpre & Hm & Hact & Hcp & ->)|?]%IH;
        [|by right].
      left. exists (j :: pre), i, m, post, ok. split_and!; try done.
      constructor; [|done]. unfold node_flag. rewrite Hn. simpl. by rewrite Ha.
Qed.

Lemma download_frame d f :
  nodes (download d f).1 = nodes d ∧ metadata (download d f).1 = metadata d.
Proof.
  unfold download. destruct (metadata d !! f); [|done].
  by destruct (download_scan _ _ _ _).
Qed.

(** C4: the replica a download reads is the earliest recorded one whose
    node is active.  When the ids recorded before [i] all name inactive
    nodes and [i] names an active one, the only file system call of the
    download is the copy from the directory of node [i], and when that
    call returns the download reports success from node [i]. *)
Theorem download_first_active d f pre i post :
  metadata d !! f = Some (pre ++ i :: post) →
  Forall (λ j, node_flag (nodes d) j false) pre →
  node_flag (nodes d) i true →
  ∃ n ok,
    node_at (nodes d) i = Some n ∧
    io_since (disk d) (disk (download d f).1) =
      [mkEvent (OpCopy (replica_path n f) ("downloaded_" +:+ f)) ok] ∧
    (download d f).2 =
      (if ok then DownloadSuccess i else ReplicationIOError) ∧
    (ok = true →
     files (disk (download d f).1) =
       <["downloaded_" +:+ f := default "" (files (disk d) !! replica_path n f)]>
         (files (disk d)) ∧
     is_Some (files (disk d) !! replica_path n f)).
Proof.
  intros Hmeta Hpre Hi. unfold download. rewrite Hmeta.
  rewrite download_scan_skip by done. simpl.
  unfold node_flag in Hi. destruct (node_at (nodes d) i) as [n|]; [|done].
  simpl in Hi. injection Hi as ->.
  destruct (fs_copy _ _ _) as [fs' ok] eqn:Hcp. simpl.
  exists n, ok. split; [done|]. destruct ok.
  - apply fs_copy_true in Hcp as (c & Hc & _ & Hfiles & Hlog).
    split; [by apply io_since_app|]. split; [done|]. intros _.
    rewrite Hfiles, Hc. eauto.
  - apply fs_copy_false in Hcp as [_ Hlog].
    split; [by apply io_since_app|]. done.
Qed.

(** C6: when a fetch of a download raises, the download reports
    [ReplicationIOError]; the failing fetch is on the earliest recorded
    replica whose node is active and it is the only file system call of
    the download: no later replica is tried and no file is written. *)
Theorem download_fetch_failure_aborts d f nodeList :
  metadata d !! f = Some nodeList →
  Exists (λ e, ev_ok e = false) (io_since (disk d) (disk (download d f).1)) →
  (download d f).2 = ReplicationIOError ∧
  files (disk (download d f).1) = files (disk d) ∧
  ∃ pre i n post,
    nodeList = pre ++ i :: post ∧
    Forall (λ j, node_flag (nodes d) j false) pre ∧
    node_at (nodes d) i = Some n ∧ active n = true ∧
    io_since (disk d) (disk (download d f).1) =
      [mkEvent (OpCopy (replica_path n f) ("downloaded_" +:+ f)) false].
Proof.
  intros Hmeta. unfold download. rewrite Hmeta.
  destruct (download_scan _ _ _ _) as [fs' out] eqn:Hscan. simpl.
  apply download_scan_spec in Hscan
    as [(pre & i & n & post & ok & -> & Hpre & Hn & Ha & Hcp & ->)|[-> _]].
  2:{ rewrite io_since_refl. by inversion 1. }
  destruct ok.
  - apply fs_copy_true in Hcp as (c & _ & _ & _ & Hlog).
    apply io_since_app in Hlog. rewrite Hlog.
    intros Hbad. apply Exists_cons in Hbad as [?|Hbad]; [done|by inv Hbad].
  - apply fs_copy_false in Hcp as [Hfiles Hlog]. intros _.
    split; [done|]. split; [done|]. exists pre, i, n, post.
    split_and!; try done. by apply io_since_app.
Qed.

(** ** Delete *)

Lemma recorded_paths_cons ns f i n rest :
  node_at ns i = Some n →
  recorded_paths ns f (i :: rest) = replica_path n f :: recorded_paths ns f rest.
Proof. intros Hn. unfold recorded_paths. simpl. by rewrite Hn. Qed.

Lemma delete_scan_spec f ns nodeList : ∀ fs fs' r,
  delete_scan f ns nodeList fs = (fs', r) →
  match r with
  | Completed =>
      files fs' = remove_all (recorded_paths ns f nodeList) (files fs) ∧
      io_log fs' = io_log fs ++ (removed <$> recorded_paths ns f nodeList)
  | Throw =>
      ∃ pre i n post, nodeList = pre ++ i :: post ∧
        node_at ns i = Some n ∧
        files fs' = remove_all (recorded_paths ns f pre) (files fs) ∧
        io_log fs' = io_log fs ++ (removed <$> recorded_paths ns f pre)
                       ++ [mkEvent (OpRemove (replica_path n f)) false]
  | Undef => ∃ i, i ∈ nodeList ∧ node_at ns i = None
  end.
Proof.
  induction nodeList as [|j rest IH]; intros fs fs' r Hscan;
    simpl in Hscan; revert Hscan.
  - intros [= <- <-]. simpl. by rewrite app_nil_r.
  - destruct (node_at ns j) as [n|] eqn:Hn.
    2:{ intros [= <- <-]. exists j. split; [left|done]. }
    destruct (fs_remove fs (replica_path n f)) as [fs1 [|]] eqn:Hrm.
    + apply fs_remove_true in Hrm as [Hfiles Hlog].
      intros Hscan%IH. destruct r.
      * destruct Hscan as [Hf' Hl'].
        rewrite (recorded_paths_cons _ _ _ _ _ Hn). simpl.
        rewrite Hf', Hl', Hfiles, Hlog, <- app_assoc. done.
      * destruct Hscan as (pre & i & m & post & -> & Hm & Hf' & Hl').
        exists (j :: pre), i, m, post.
        rewrite (recorded_paths_cons _ _ _ _ _ Hn). simpl.
        rewrite Hf', Hl', Hfiles, Hlog, <- app_assoc. done.
      * destruct Hscan as (i & Hi & Hnone). exists i. split; [by right|done].
    + apply fs_remove_false in Hrm as [Hfiles Hlog]. intros [= <- <-].
      exists [], j, n, rest. done.
Qed.

Lemma remove_all_gone ps m p :
  p ∈ ps ∨ m !! p = None → remove_all ps m !! p = None.
Proof.
  revert m. induction ps as [|q ps IH]; intros m [Hin|Hm]; simpl.
  - by apply not_elem_of_nil in Hin.
  - done.
  - apply IH. apply elem_of_cons in Hin as [->|Hin]; [|by left].
    right. apply lookup_delete_eq.
  - apply IH. right. rewrite lookup_delete_None. by right.
Qed.

Lemma remove_all_other ps m p :
  p ∉ ps → remove_all ps m !! p = m !! p.
Proof.
  revert m. induction ps as [|q ps IH]; intros m Hp; simpl; [done|].
  apply not_elem_of_cons in Hp as [Hne Hp].
  rewrite IH by done. by apply lookup_delete_ne.
Qed.

Lemma recorded_paths_elem ns f nodeList i n :
  i ∈ nodeList → node_at ns i = Some n →
  replica_path n f ∈ recorded_paths ns f nodeList.
Proof.
  intros Hi Hn. unfold recorded_paths. apply list_elem_of_omap.
  exists i. split; [done|]. by rewrite Hn.
Qed.

(** C1, as amended: for a stored file, [deleteFile] either completes
    every removal, and then the key leaves the directory and no recorded
    node keeps a copy; or one removal raises, and then the directory is
    unchanged, no further removal is tried, every file other than the
    copies on the nodes recorded before the failing one is as before the
    call, and those earlier copies are gone and are not restored. *)
Theorem deleteFile_outcome d f nodeList :
  replicas_in_range d →
  metadata d !! f = Some nodeList →
  ((deleteFile d f).2 = DeleteSuccess ∧
   metadata (deleteFile d f).1 = delete f (metadata d) ∧
   io_since (disk d) (disk (deleteFile d f).1) =
     removed <$> recorded_paths (nodes d) f nodeList ∧
   (∀ i n, i ∈ nodeList → node_at (nodes d) i = Some n →
           files (disk (deleteFile d f).1) !! replica_path n f = None)) ∨
  ((deleteFile d f).2 = ReplicationIOError ∧
   metadata (deleteFile d f).1 = metadata d ∧
   ∃ pre i n post,
     nodeList = pre ++ i :: post ∧ node_at (nodes d) i = Some n ∧
     io_since (disk d) (disk (deleteFile d f).1) =
       (removed <$> recorded_paths (nodes d) f pre)
         ++ [mkEvent (OpRemove (replica_path n f)) false] ∧
     (∀ p, p ∈ recorded_paths (nodes d) f pre →
           files (disk (deleteFile d f).1) !! p = None) ∧
     (∀ p, p ∉ recorded_paths (nodes d) f pre →
           files (disk (deleteFile d f).1) !! p = files (disk d) !! p)).
Proof.
  intros Hrange Hmeta. unfold deleteFile. rewrite Hmeta.
  destruct (delete_scan _ _ _ _) as [fs' r] eqn:Hscan.
  apply delete_scan_spec in Hscan. destruct r; simpl.
  - destruct Hscan as [Hfiles Hlog]. left. split_and!; try done.
    + by apply io_since_app.
    + intros i n Hi Hn. rewrite Hfiles. apply remove_all_gone. left.
      by eapply recorded_paths_elem.
  - destruct Hscan as (pre & i & n & post & -> & Hn & Hfiles & Hlog).
    right. split_and!; try done. exists pre, i, n, post.
    split_and!; try done.
    + by apply io_since_app.
    + intros p Hp. rewrite Hfiles. apply remove_all_gone. by left.
    + intros p Hp. rewrite Hfiles. by apply remove_all_other.
  - destruct Hscan as (i & Hi & Hnone). exfalso.
    specialize (Hrange _ _ Hmeta). rewrite Forall_forall in Hrange.
    destruct (node_at_in_range (nodes d) i (Hrange _ Hi)). congruence.
Qed.

(** ** The replica audit *)

Lemma live_replicas_cons ns i rest :
  live_replicas ns (i :: rest) =
    (if decide (node_flag ns i true) then 1 else 0) + live_replicas ns rest.
Proof.
  unfold live_replicas. rewrite filter_cons.
  destruct (decide (node_flag ns i true)); simpl; lia.
Qed.

Lemma count_active_spec ns nodeList : ∀ activeCount,
  Forall (λ i, 1 ≤ i ≤ Z.of_nat (length ns)) nodeList →
  count_active ns nodeList activeCount =
    Some (activeCount + live_replicas ns nodeList).
Proof.
  induction nodeList as [|i rest IH]; intros acc Hrange; simpl.
  - unfold live_replicas. simpl. f_equal. lia.
  - apply Forall_cons in Hrange as [Hi Hrest].
    destruct (node_at_in_range ns i Hi) as [n Hn]. rewrite Hn.
    rewrite IH by done. rewrite live_replicas_cons. f_equal.
    destruct (decide (node_flag ns i true)) as [Hf|Hf];
      unfold node_flag in Hf; rewrite Hn in Hf; simpl in Hf;
      destruct (active n); try done; lia.
Qed.

Lemma audit_spec ns es :
  Forall (λ e, Forall (λ i, 1 ≤ i ≤ Z.of_nat (length ns)) e.2) es →
  audit ns es = Some (omap (warning_of ns) es).
Proof.
  induction 1 as [|[file nodeList] es Hrange _ IH]; [done|].
  simpl in *. rewrite count_active_spec by done. rewrite IH.
  unfold warning_of. simpl. by destruct (_ <? 2).
Qed.

Lemma elem_of_entries m f nodeList :
  (f, nodeList) ∈ entries m ↔ m !! f = Some nodeList.
Proof.
  unfold entries. rewrite merge_sort_Permutation.
  apply elem_of_map_to_list.
Qed.

Lemma checkReplicaHealth_spec d :
  replicas_in_range d →
  checkReplicaHealth d =
    Some (omap (warning_of (nodes d)) (entries (metadata d))).
Proof.
  intros Hrange. apply audit_spec. apply Forall_forall.
  intros [f nodeList] Hin. apply elem_of_entries in Hin. by eapply Hrange.
Qed.

(** C7: the audit prints a warning for a file exactly when fewer than two
    of its recorded ids name an active node, and the warning carries that
    number of active replicas. *)
Theorem audit_warns_below_two d :
  replicas_in_range d →
  ∃ ws, checkReplicaHealth d = Some ws ∧
    ∀ f activeCount,
      (f, activeCount) ∈ ws ↔
      ∃ nodeList, metadata d !! f = Some nodeList ∧
        activeCount = live_replicas (nodes d) nodeList ∧ activeCount < 2.
Proof.
  intros Hrange. eexists. split; [by apply checkReplicaHealth_spec|].
  intros f c. rewrite list_elem_of_omap. split.
  - intros ([f' nodeList] & Hin & Hw). apply elem_of_entries in Hin.
    unfold warning_of in Hw. simpl in Hw.
    destruct (_ <? 2) eqn:Hlt; [|discriminate]. apply Z.ltb_lt in Hlt.
    injection Hw as -> <-. eauto.
  - intros (nodeList & Hmeta & -> & Hlt). exists (f, nodeList).
    split; [by apply elem_of_entries|]. unfold warning_of. simpl.
    apply Z.ltb_lt in Hlt. by rewrite Hlt.
Qed.

(** ** Failing and recovering a node *)

Lemma node_at_alter g ns x i :
  1 ≤ x →
  node_at (alter g (Z.to_nat (x - 1)) ns) i =
    (if decide (i = x) then g else λ n, n) <$> node_at ns i.
Proof.
  intros Hx. unfold node_at.
  destruct (1 <=? i) eqn:Hi; [|by destruct (decide _)].
  apply Z.leb_le in Hi. destruct (decide (i = x)) as [->|Hne].
  - apply list_lookup_alter_eq.
  - rewrite list_lookup_alter_ne by lia. by destruct (_ !! _).
Qed.

Lemma replicas_in_range_nodes d ns m fs :
  length ns = length (nodes d) → m = metadata d →
  replicas_in_range d →
  replicas_in_range {| nodes := ns; metadata := m; disk := fs |}.
Proof. intros Hlen -> Hrange f nodeList. simpl. rewrite Hlen. apply Hrange. Qed.

Lemma nodes_wf_alter g x ns :
  (∀ n, id (g n) = id n) → nodes_wf ns → nodes_wf (alter g x ns).
Proof.
  intros Hg Hwf. unfold nodes_wf. rewrite length_alter, <- Hwf.
  apply list_eq. intros k. rewrite !list_lookup_fmap, list_lookup_alter.
  case_decide as Hk; [subst k|done].
  destruct (ns !! x); simpl; [|done]. by rewrite Hg.
Qed.

(** Toggling the flag of one node keeps the recorded ids in range, so the
    audit that follows is defined. *)
Lemma toggle_valid g d x :
  replicas_in_range d →
  1 ≤ x ≤ Z.of_nat (length (nodes d)) →
  let d' := {| nodes := alter g (Z.to_nat (x - 1)) (nodes d);
               metadata := metadata d; disk := disk d |} in
  replicas_in_range d' ∧ is_Some (checkReplicaHealth d').
Proof.
  intros Hrange Hx d'.
  assert (replicas_in_range d') as Hrange'.
  { apply (replicas_in_range_nodes d); [apply length_alter|done|done]. }
  split; [done|]. rewrite checkReplicaHealth_spec by done. eauto.
Qed.

Lemma failNode_valid d x :
  replicas_in_range d → 1 ≤ x ≤ Z.of_nat (length (nodes d)) →
  ∃ ws, failNode d x =
    ({| nodes := alter fail (Z.to_nat (x - 1)) (nodes d);
        metadata := metadata d; disk := disk d |}, NodeFailed x ws).
Proof.
  intros Hrange Hx. unfold failNode.
  replace (x <? 1) with false by (symmetry; apply Z.ltb_ge; lia).
  replace (_ <? x) with false by (symmetry; apply Z.ltb_ge; lia). simpl.
  destruct (toggle_valid fail d x Hrange Hx) as [_ [ws ->]]. eauto.
Qed.

Lemma recoverNode_valid d x :
  replicas_in_range d → 1 ≤ x ≤ Z.of_nat (length (nodes d)) →
  ∃ ws, recoverNode d x =
    ({| nodes := alter recover (Z.to_nat (x - 1)) (nodes d);
        metadata := metadata d; disk := disk d |}, NodeRecovered x ws).
Proof.
  intros Hrange Hx. unfold recoverNode.
  replace (x <? 1) with false by (symmetry; apply Z.ltb_ge; lia).
  replace (_ <? x) with false by (symmetry; apply Z.ltb_ge; lia). simpl.
  destruct (toggle_valid recover d x Hrange Hx) as [_ [ws ->]]. eauto.
Qed.

Lemma node_flag_alter g b ns x :
  (∀ n, active (g n) = b) → 1 ≤ x ≤ Z.of_nat (length ns) →
  node_flag (alter g (Z.to_nat (x - 1)) ns) x b.
Proof.
  intros Hg Hx. unfold node_flag. rewrite node_at_alter by lia.
  rewrite decide_True by done.
  destruct (node_at_in_range ns x Hx) as [n ->]. simpl. by rewrite Hg.
Qed.

Lemma alter_twice g (ns : list Node) k :
  (∀ n, g (g n) = g n) → alter g k (alter g k ns) = alter g k ns.
Proof.
  intros Hg. rewrite list_alter_alter_eq. apply list_alter_ext; [|done].
  intros n _. apply Hg.
Qed.

(** C9: for a valid node id, [failNode] called twice in a row leaves
    the node inactive after each call, the second call prints the
    node-failed message (not the invalid-id error) and changes nothing;
    likewise [recoverNode] leaves the node active after each call. *)
Theorem fail_recover_idempotent d x :
  replicas_in_range d →
  1 ≤ x ≤ Z.of_nat (length (nodes d)) →
  (let d1 := (failNode d x).1 in
   let d2 := (failNode d1 x).1 in
   node_flag (nodes d1) x false ∧ node_flag (nodes d2) x false ∧
   (∃ ws, (failNode d x).2 = NodeFailed x ws) ∧
   (∃ ws, (failNode d1 x).2 = NodeFailed x ws) ∧
   d2 = d1) ∧
  (let d1 := (recoverNode d x).1 in
   let d2 := (recoverNode d1 x).1 in
   node_flag (nodes d1) x true ∧ node_flag (nodes d2) x true ∧
   (∃ ws, (recoverNode d x).2 = NodeRecovered x ws) ∧
   (∃ ws, (recoverNode d1 x).2 = NodeRecovered x ws) ∧
   d2 = d1).
Proof.
  intros Hrange Hx. split.
  - destruct (failNode_valid d x Hrange Hx) as [ws1 H1]. rewrite H1. simpl.
    set (d1 := {| nodes := alter fail _ _ |}).
    assert (replicas_in_range d1) as Hrange1
      by (apply (replicas_in_range_nodes d); [apply length_alter|done|done]).
    assert (1 ≤ x ≤ Z.of_nat (length (nodes d1))) as Hx1
      by (simpl; by rewrite length_alter).
    destruct (failNode_valid d1 x Hrange1 Hx1) as [ws2 H2]. rewrite H2. simpl.
    rewrite alter_twice by done.
    split_and!; eauto using node_flag_alter.
  - destruct (recoverNode_valid d x Hrange Hx) as [ws1 H1]. rewrite H1. simpl.
    set (d1 := {| nodes := alter recover _ _ |}).
    assert (replicas_in_range d1) as Hrange1
      by (apply (replicas_in_range_nodes d); [apply length_alter|done|done]).
    assert (1 ≤ x ≤ Z.of_nat (length (nodes d1))) as Hx1
      by (simpl; by rewrite length_alter).
    destruct (recoverNode_valid d1 x Hrange1 Hx1) as [ws2 H2]. rewrite H2. simpl.
    rewrite alter_twice by done.
    split_and!; eauto using node_flag_alter.
Qed.

(** ** The invariant of the directory *)

Lemma DistributedFS_new_wf totalNodes fs :
  nodes_wf (nodes (DistributedFS_new totalNodes fs)) ∧
  replicas_in_range (DistributedFS_new totalNodes fs).
Proof.
  split.
  - unfold nodes_wf. simpl. rewrite length_fmap, length_seqZ.
    rewrite <- list_fmap_compose. rewrite list_fmap_id.
    destruct (decide (0 ≤ totalNodes)).
    + by rewrite Z2Nat.id.
    + replace (Z.to_nat totalNodes) with 0%nat by lia.
      unfold seqZ. by replace (Z.to_nat totalNodes) with 0%nat by lia.
  - intros f nodeList. simpl. by rewrite lookup_empty.
Qed.

Lemma upload_preserves d f :
  nodes_wf (nodes d) → replicas_in_range d →
  nodes_wf (nodes (upload d f).1) ∧ replicas_in_range (upload d f).1.
Proof.
  intros Hwf Hrange. destruct (upload d f) as [d' out] eqn:Hup. simpl.
  apply upload_cases in Hup as [Hns Hcase]. rewrite Hns. split; [done|].
  intros g nodeList. rewrite Hns.
  destruct Hcase as [(_ & -> & _)|(c & _ & Hcase)]; [apply Hrange|].
  destruct Hcase as [(_ & Hsucc)|[(_ & _ & -> & _)|(_ & -> & _)]];
    [|apply Hrange..].
  simpl in Hsucc. destruct Hsucc as (_ & -> & _).
  rewrite lookup_insert_Some. intros [[_ <-]|[_ Hold]]; [|by eapply Hrange].
  apply Forall_fmap, Forall_forall. intros n Hn.
  apply subseteq_take, list_elem_of_filter in Hn as [_ Hn].
  apply list_elem_of_lookup in Hn as [k Hk]. simpl.
  rewrite (nodes_wf_lookup _ _ _ Hwf Hk). apply lookup_lt_Some in Hk. lia.
Qed.

Lemma deleteFile_preserves d f :
  nodes_wf (nodes d) → replicas_in_range d →
  nodes_wf (nodes (deleteFile d f).1) ∧ replicas_in_range (deleteFile d f).1.
Proof.
  intros Hwf Hrange. unfold deleteFile.
  destruct (metadata d !! f); [|done].
  destruct (delete_scan _ _ _ _) as [fs' []]; simpl; split; try done.
  intros g nodeList. simpl. rewrite lookup_delete_Some.
  intros [_ Hold]. by eapply Hrange.
Qed.

Lemma exec_preserves d c :
  nodes_wf (nodes d) → replicas_in_range d →
  nodes_wf (nodes (exec d c).1) ∧ replicas_in_range (exec d c).1.
Proof.
  intros Hwf Hrange. destruct c as [f|f|f| |x|x| ]; simpl; try done.
  - by apply upload_preserves.
  - destruct (download_frame d f) as [Hns Hmeta].
    destruct (download d f) as [[ns m fs] out]. simpl in *. subst. done.
  - by apply deleteFile_preserves.
  - unfold failNode. destruct (_ || _); [done|].
    destruct (checkReplicaHealth _); simpl;
      (split; [by apply nodes_wf_alter|
               apply (replicas_in_range_nodes d);
                 [apply length_alter|done|done]]).
  - unfold recoverNode. destruct (_ || _); [done|].
    destruct (checkReplicaHealth _); simpl;
      (split; [by apply nodes_wf_alter|
               apply (replicas_in_range_nodes d);
                 [apply length_alter|done|done]]).
Qed.

Lemma run_preserves cs : ∀ d,
  nodes_wf (nodes d) → replicas_in_range d →
  nodes_wf (nodes (run d cs)) ∧ replicas_in_range (run d cs).
Proof.
  induction cs as [|c cs IH]; intros d Hwf Hrange; [done|].
  simpl. destruct (exec_preserves d c Hwf Hrange). by apply IH.
Qed.

Lemma exec_length d c : length (nodes (exec d c).1) = length (nodes d).
Proof.
  destruct c as [f|f|f| |x|x| ]; simpl; try done.
  - destruct (upload d f) as [d' out] eqn:Hup.
    apply upload_cases in Hup as [Hns _]. simpl. by rewrite Hns.
  - destruct (download_frame d f) as [Hns _]. by rewrite Hns.
  - unfold deleteFile. destruct (metadata d !! f); [|done].
    by destruct (delete_scan _ _ _ _) as [fs' []].
  - unfold failNode. destruct (_ || _); [done|].
    destruct (checkReplicaHealth _); simpl; apply length_alter.
  - unfold recoverNode. destruct (_ || _); [done|].
    destruct (checkReplicaHealth _); simpl; apply length_alter.
Qed.

Lemma run_length cs : ∀ d, length (nodes (run d cs)) = length (nodes d).
Proof.
  induction cs as [|c cs IH]; intros d; [done|].
  simpl. rewrite IH. apply exec_length.
Qed.

(** C8: in every state a session reaches from a freshly constructed
    coordinator, every recorded id lies between 1 and the number of
    nodes; and every command (upload, download, delete, fail, recover,
    list, nodes) keeps this so, as does the audit, which only reads. *)
Theorem replicas_in_range_invariant :
  (∀ totalNodes fs cs f nodeList i,
     metadata (run (DistributedFS_new totalNodes fs) cs) !! f = Some nodeList →
     i ∈ nodeList →
     1 ≤ i ≤ totalNodes ∧
     is_Some (node_at (nodes (run (DistributedFS_new totalNodes fs) cs)) i)) ∧
  (∀ d c, nodes_wf (nodes d) → replicas_in_range d →
     nodes_wf (nodes (exec d c).1) ∧ replicas_in_range (exec d c).1) ∧
  (∀ d f nodeList i,
     replicas_in_range d → metadata d !! f = Some nodeList → i ∈ nodeList →
     is_Some (node_at (nodes d) i)).
Proof.
  split_and!.
  - intros n fs cs f nodeList i Hmeta Hi.
    destruct (DistributedFS_new_wf n fs) as [Hwf Hrange].
    destruct (run_preserves cs _ Hwf Hrange) as [_ Hrange'].
    specialize (Hrange' _ _ Hmeta). rewrite Forall_forall in Hrange'.
    specialize (Hrange' _ Hi). split; [|by apply node_at_in_range].
    rewrite run_length in Hrange'. simpl in Hrange'.
    rewrite length_fmap, length_seqZ in Hrange'. lia.
  - apply exec_preserves.
  - intros d f nodeList i Hrange Hmeta Hi. apply node_at_in_range.
    specialize (Hrange _ _ Hmeta). rewrite Forall_forall in Hrange. auto.
Qed.

(** * Further properties of the coordinator *)

(** ** What failing and recovering a node change *)

Lemma failNode_frame d x :
  metadata (failNode d x).1 = metadata d ∧ disk (failNode d x).1 = disk d ∧
  nodes (failNode d x).1 =
    (if decide (1 ≤ x ≤ Z.of_nat (length (nodes d)))
     then alter fail (Z.to_nat (x - 1)) (nodes d) else nodes d).
Proof.
  unfold failNode. destruct (decide _) as [Hx|Hx].
  - replace (x <? 1) with false by (symmetry; apply Z.ltb_ge; lia).
    replace (_ <? x) with false by (symmetry; apply Z.ltb_ge; lia). simpl.
    by destruct (checkReplicaHealth _).
  - replace ((x <? 1) || (_ <? x)) with true; [done|].
    symmetry. apply orb_true_iff. rewrite !Z.ltb_lt. lia.
Qed.

Lemma recoverNode_frame d x :
  metadata (recoverNode d x).1 = metadata d ∧
  disk (recoverNode d x).1 = disk d ∧
  nodes (recoverNode d x).1 =
    (if decide (1 ≤ x ≤ Z.of_nat (length (nodes d)))
     then alter recover (Z.to_nat (x - 1)) (nodes d) else nodes d).
Proof.
  unfold recoverNode. destruct (decide _) as [Hx|Hx].
  - replace (x <? 1) with false by (symmetry; apply Z.ltb_ge; lia).
    replace (_ <? x) with false by (symmetry; apply Z.ltb_ge; lia). simpl.
    by destruct (checkReplicaHealth _).
  - replace ((x <? 1) || (_ <? x)) with true; [done|].
    symmetry. apply orb_true_iff. rewrite !Z.ltb_lt. lia.
Qed.

Lemma node_at_out_of_range ns x :
  ¬ (1 ≤ x ≤ Z.of_nat (length ns)) → node_at ns x = None.
Proof.
  intros Hx. unfold node_at. destruct (1 <=? x) eqn:H1; [|done].
  apply Z.leb_le in H1. apply lookup_ge_None. lia.
Qed.

(** The node a lookup finds after [failNode d x], for every [x]. *)
Lemma node_at_failNode d x i :
  node_at (nodes (failNode d x).1) i =
    (if decide (i = x) then fail else λ n, n) <$> node_at (nodes d) i.
Proof.
  destruct (failNode_frame d x) as (_ & _ & ->).
  destruct (decide (1 ≤ x ≤ _)) as [Hx|Hx]; [apply node_at_alter; lia|].
  destruct (decide (i = x)) as [->|_].
  - by rewrite node_at_out_of_range.
  - by destruct (node_at _ _).
Qed.

Lemma node_at_recoverNode d x i :
  node_at (nodes (recoverNode d x).1) i =
    (if decide (i = x) then recover else λ n, n) <$> node_at (nodes d) i.
Proof.
  destruct (recoverNode_frame d x) as (_ & _ & ->).
  destruct (decide (1 ≤ x ≤ _)) as [Hx|Hx]; [apply node_at_alter; lia|].
  destruct (decide (i = x)) as [->|_].
  - by rewrite node_at_out_of_range.
  - by destruct (node_at _ _).
Qed.

Lemma recover_fail n : active n = true → recover (fail n) = n.
Proof. destruct n as [i a dir]. simpl. by intros ->. Qed.

Lemma fail_recover n : active n = false → fail (recover n) = n.
Proof. destruct n as [i a dir]. simpl. by intros ->. Qed.

Lemma alter_undo (g h : Node → Node) (ns : list Node) k n :
  ns !! k = Some n → h (g n) = n → alter h k (alter g k ns) = ns.
Proof.
  intros Hk Hn. rewrite list_alter_alter_eq.
  rewrite (list_alter_ext (h ∘ g) (λ m, m) ns ns k); [by apply list_alter_id| |done].
  intros m Hm. rewrite Hk in Hm. by injection Hm as <-.
Qed.

(** X1: recovering a node that was just failed restores the state the
    coordinator had before, when the node was active then; and failing a
    node that was just recovered restores it when the node was inactive. *)
Theorem fail_recover_round_trip d x :
  (node_flag (nodes d) x true → (recoverNode (failNode d x).1 x).1 = d) ∧
  (node_flag (nodes d) x false → (failNode (recoverNode d x).1 x).1 = d).
Proof.
  split; intros Hflag; unfold node_flag in Hflag;
    destruct (node_at (nodes d) x) as [n|] eqn:Hn; try discriminate;
    simpl in Hflag; injection Hflag as Ha;
    apply node_at_Some in Hn as [Hx Hn].
  - destruct (failNode_frame d x) as (Hm1 & Hd1 & Hn1).
    destruct (recoverNode_frame (failNode d x).1 x) as (Hm2 & Hd2 & Hn2).
    rewrite decide_True in Hn1 by done.
    rewrite Hn1, length_alter, decide_True in Hn2 by done.
    rewrite (alter_undo fail recover _ _ n Hn) in Hn2 by (by apply recover_fail).
    destruct (recoverNode _ x).1 as [ns m fs]. destruct d. simpl in *.
    congruence.
  - destruct (recoverNode_frame d x) as (Hm1 & Hd1 & Hn1).
    destruct (failNode_frame (recoverNode d x).1 x) as (Hm2 & Hd2 & Hn2).
    rewrite decide_True in Hn1 by done.
    rewrite Hn1, length_alter, decide_True in Hn2 by done.
    rewrite (alter_undo recover fail _ _ n Hn) in Hn2 by (by apply fail_recover).
    destruct (failNode _ x).1 as [ns m fs]. destruct d. simpl in *.
    congruence.
Qed.


(** ** No access outside the vector *)





(** ** When a download finds no replica *)

Lemma download_scan_unavailable f ns nodeList fs :
  (download_scan f ns nodeList fs).2 = AllReplicasUnavailable →
  Forall (λ j, node_flag ns j false) nodeList.
Proof.
  induction nodeList as [|j rest IH]; simpl; [constructor|].
  destruct (node_at ns j) as [n|] eqn:Hn; [|done].
  destruct (active n) eqn:Ha.
  - by destruct (fs_copy _ _ _) as [fs' []].
  - intros Hrest. constructor; [|by apply IH].
    unfold node_flag. rewrite Hn. simpl. by rewrite Ha.
Qed.

(** X3: a download of a stored file reports [AllReplicasUnavailable]
    exactly when every recorded id names an inactive node, and it then
    calls the file system not at all and changes nothing. *)
Theorem download_unavailable_iff d f nodeList :
  metadata d !! f = Some nodeList →
  ((download d f).2 = AllReplicasUnavailable ↔
   Forall (λ j, node_flag (nodes d) j false) nodeList) ∧
  ((download d f).2 = AllReplicasUnavailable → (download d f).1 = d).
Proof.
  intros Hmeta. unfold download. rewrite Hmeta.
  destruct (download_scan f (nodes d) nodeList (disk d)) as [fs' out] eqn:Hscan.
  simpl. split; [split|].
  - intros ->. apply (download_scan_unavailable f _ _ (disk d)).
    by rewrite Hscan.
  - intros Hall.
    rewrite <- (app_nil_r nodeList), download_scan_skip in Hscan by done.
    simpl in Hscan. by injection Hscan as _ <-.
  - intros ->.
    pose proof (download_scan_unavailable f (nodes d) nodeList (disk d)) as Hall.
    rewrite Hscan in Hall. specialize (Hall eq_refl).
    rewrite <- (app_nil_r nodeList), download_scan_skip in Hscan by done.
    simpl in Hscan. injection Hscan as <-. by destruct d.
Qed.


(** ** What a successful upload leaves on the nodes *)

Lemma upload_success_facts d f used :
  nodes_wf (nodes d) →
  (upload d f).2 = UploadSuccess used →
  ∃ c,
    files (disk d) !! f = Some c ∧
    nodes (upload d f).1 = nodes d ∧
    metadata (upload d f).1 = <[f := used]> (metadata d) ∧
    used = id <$> take (Z.to_nat REPLICATION) (active_nodes (nodes d)) ∧
    length used = Z.to_nat REPLICATION ∧ NoDup used ∧
    io_log (disk (upload d f).1) =
      io_log (disk d)
        ++ (stored f <$> take (Z.to_nat REPLICATION) (active_nodes (nodes d))) ∧
    files (disk (upload d f).1) !! f = Some c ∧
    (∀ i, i ∈ used → ∃ n,
       node_at (nodes d) i = Some n ∧ active n = true ∧
       files (disk (upload d f).1) !! replica_path n f = Some c).
Proof.
  intros Hwf. destruct (upload d f) as [d' out] eqn:Hup. simpl. intros ->.
  apply upload_cases in Hup as [Hns [(_ & _ & ?)|(c & Hc & Hcase)]]; [done|].
  destruct Hcase as [(Hmany & Hs)|[(_ & ? & _)|(? & _)]]; try done.
  simpl in Hs. destruct Hs as (Hused & Hmeta & Hfiles & Hlog).
  injection Hused as ->. exists c.
  set (A := active_nodes (nodes d)) in *.
  pose proof (active_ids_sorted _ Hwf) as Hsorted. fold A in Hsorted.
  rewrite <- (take_drop (Z.to_nat REPLICATION) A), fmap_app in Hsorted.
  apply StronglySorted_app_1_l in Hsorted.
  split_and!; try done.
  - rewrite length_fmap, length_take. unfold REPLICATION in *. lia.
  - by apply StronglySorted_lt_NoDup.
  - rewrite Hfiles. by apply store_all_keeps.
  - intros i (n & -> & Hn)%list_elem_of_fmap. exists n.
    assert (n ∈ A) as [Ha Hin]%list_elem_of_filter
      by (by eapply subseteq_take).
    split_and!; [by apply node_at_elem|done|].
    rewrite Hfiles. by apply store_all_lookup.
Qed.


(** ** Two failures are survived *)





(** ** What the operations leave alone *)

Lemma store_all_other f c placed m p :
  (∀ n, n ∈ placed → p ≠ replica_path n f) →
  store_all f c placed m !! p = m !! p.
Proof.
  revert m. induction placed as [|n placed IH]; intros m Hp; [done|].
  simpl. rewrite IH by (intros k Hk; apply Hp; by right).
  apply lookup_insert_ne. intros Heq. by apply (Hp n); [left|].
Qed.

Lemma store_all_mono f c placed m p :
  is_Some (m !! p) → is_Some (store_all f c placed m !! p).
Proof.
  revert m. induction placed as [|n placed IH]; intros m Hm; [done|].
  simpl. apply IH. rewrite lookup_insert_is_Some.
  destruct (decide (replica_path n f = p)); eauto.
Qed.

Lemma upload_frame_facts d f :
  nodes (upload d f).1 = nodes d ∧
  (∀ g, g ≠ f → metadata (upload d f).1 !! g = metadata d !! g) ∧
  (∀ p, is_Some (files (disk d) !! p) →
        is_Some (files (disk (upload d f).1) !! p)) ∧
  (∀ p, (∀ n, n ∈ nodes d → active n = true → p ≠ replica_path n f) →
        files (disk (upload d f).1) !! p = files (disk d) !! p) ∧
  Forall (λ e, ∃ to, ev_op e = OpCopy f to)
         (io_since (disk d) (disk (upload d f).1)).
Proof.
  destruct (upload d f) as [d' out] eqn:Hup. simpl.
  apply upload_cases in Hup as [Hns [(_ & -> & _)|(c & Hc & Hcase)]].
  { rewrite io_since_refl. split_and!; done. }
  assert (∀ placed, placed ⊆ active_nodes (nodes d) →
            files (disk d') = store_all f c placed (files (disk d)) →
            (∀ p, is_Some (files (disk d) !! p) →
                  is_Some (files (disk d') !! p)) ∧
            (∀ p, (∀ n, n ∈ nodes d → active n = true →
                        p ≠ replica_path n f) →
                  files (disk d') !! p = files (disk d) !! p)) as Hfiles.
  { intros placed Hsub ->. split; intros p Hp.
    - by apply store_all_mono.
    - apply store_all_other. intros n Hn.
      apply Hsub, list_elem_of_filter in Hn as [Ha Hn]. by apply Hp. }
  assert (∀ placed, Forall (λ e, ∃ to, ev_op e = OpCopy f to)
                           (stored f <$> placed)) as Hcopies.
  { intros placed. apply Forall_fmap, Forall_true. intros n. simpl. eauto. }
  destruct Hcase as [(_ & Hs)|[(_ & _ & Hmeta & Hf & Hlog)|(_ & Hmeta & Hio)]].
  - simpl in Hs. destruct Hs as (_ & Hmeta & Hf & Hlog).
    destruct (Hfiles _ (subseteq_take _ _) Hf) as [Hmono Hother].
    apply io_since_app in Hlog. rewrite Hlog. split_and!; try done.
    intros g Hg. rewrite Hmeta. by apply lookup_insert_ne.
  - destruct (Hfiles _ (reflexivity _) Hf) as [Hmono Hother].
    apply io_since_app in Hlog. rewrite Hlog, Hmeta. split_and!; done.
  - destruct Hio as (pre & n & post & Hsplit & _ & _ & Hf & Hlog).
    destruct (Hfiles (active_nodes pre)) as [Hmono Hother]; [|done|].
    { rewrite Hsplit. unfold active_nodes. rewrite filter_app.
      intros k Hk. apply elem_of_app. by left. }
    apply io_since_app in Hlog. rewrite Hlog, Hmeta.
    split_and!; try done. apply Forall_app. split; [done|].
    constructor; [|constructor]. simpl. eauto.
Qed.




Lemma delete_scan_log f ns nodeList : ∀ fs,
  ∃ l, io_log (delete_scan f ns nodeList fs).1 = io_log fs ++ l ∧
       Forall (λ e, ∃ q, ev_op e = OpRemove q) l.
Proof.
  induction nodeList as [|i rest IH]; intros fs; simpl.
  - exists []. by rewrite app_nil_r.
  - destruct (node_at ns i) as [n|]; simpl.
    2:{ exists []. by rewrite app_nil_r. }
    destruct (fs_remove fs (replica_path n f)) as [fs1 [|]] eqn:Hrm.
    + apply fs_remove_true in Hrm as [_ Hlog].
      destruct (IH fs1) as (l & Hl & Hops).
      exists (removed (replica_path n f) :: l).
      rewrite Hl, Hlog, <- app_assoc. split; [done|].
      constructor; [simpl; eauto|done].
    + apply fs_remove_false in Hrm as [_ Hlog]. simpl.
      eexists. split; [exact Hlog|]. constructor; [simpl; eauto|constructor].
Qed.

Lemma delete_scan_files f ns nodeList : ∀ fs p,
  (files (delete_scan f ns nodeList fs).1 !! p = files fs !! p ∨
   files (delete_scan f ns nodeList fs).1 !! p = None) ∧
  (p ∉ recorded_paths ns f nodeList →
   files (delete_scan f ns nodeList fs).1 !! p = files fs !! p).
Proof.
  induction nodeList as [|i rest IH]; intros fs p; [simpl; by eauto|].
  destruct (node_at ns i) as [n|] eqn:Hn.
  2:{ simpl. rewrite Hn. simpl. eauto. }
  rewrite (recorded_paths_cons _ _ _ _ _ Hn). simpl. rewrite Hn.
  destruct (fs_remove fs (replica_path n f)) as [fs1 [|]] eqn:Hrm.
  - apply fs_remove_true in Hrm as [Hfiles _].
    destruct (IH fs1 p) as [Hor Hother]. rewrite Hfiles in Hor, Hother.
    split.
    + destruct (decide (replica_path n f = p)) as [<-|Hne].
      * rewrite lookup_delete_eq in Hor. right. by destruct Hor.
      * rewrite lookup_delete_ne in Hor by done. done.
    + intros [Hne Hp]%not_elem_of_cons.
      rewrite Hother by done. by apply lookup_delete_ne.
  - apply fs_remove_false in Hrm as [Hfiles _]. simpl. rewrite Hfiles. eauto.
Qed.

Lemma deleteFile_frame_facts d f :
  nodes (deleteFile d f).1 = nodes d ∧
  (∀ g, g ≠ f → metadata (deleteFile d f).1 !! g = metadata d !! g) ∧
  (∀ p, files (disk (deleteFile d f).1) !! p = files (disk d) !! p ∨
        files (disk (deleteFile d f).1) !! p = None) ∧
  (∀ p, (∀ nodeList, metadata d !! f = Some nodeList →
                     p ∉ recorded_paths (nodes d) f nodeList) →
        files (disk (deleteFile d f).1) !! p = files (disk d) !! p) ∧
  Forall (λ e, ∃ q, ev_op e = OpRemove q)
         (io_since (disk d) (disk (deleteFile d f).1)).
Proof.
  unfold deleteFile. destruct (metadata d !! f) as [nodeList|] eqn:Hmeta.
  2:{ simpl. rewrite io_since_refl. split_and!; by eauto. }
  destruct (delete_scan_log f (nodes d) nodeList (disk d)) as (l & Hl & Hops).
  pose proof (delete_scan_files f (nodes d) nodeList (disk d)) as Hfiles.
  destruct (delete_scan _ _ _ _) as [fs' r]. simpl in *.
  apply io_since_app in Hl.
  assert (∀ p, (∀ nl, Some nodeList = Some nl →
                      p ∉ recorded_paths (nodes d) f nl) →
               files fs' !! p = files (disk d) !! p) as Hother.
  { intros p Hp. apply Hfiles. by apply Hp. }
  destruct r; simpl; rewrite Hl; split_and!; try done;
    try (intros p; apply Hfiles).
  intros g Hg. by apply lookup_delete_ne.
Qed.

(** X8: a delete, whatever its outcome, leaves the nodes as they are,
    changes no directory entry other than that of its file, creates no
    file and alters no contents; the only paths it can remove are the
    copies of its file in the directories of the recorded nodes, and
    every call it makes is a removal. *)
Theorem deleteFile_frame d f :
  nodes (deleteFile d f).1 = nodes d ∧
  (∀ g, g ≠ f → metadata (deleteFile d f).1 !! g = metadata d !! g) ∧
  (∀ p, files (disk (deleteFile d f).1) !! p = files (disk d) !! p ∨
        files (disk (deleteFile d f).1) !! p = None) ∧
  (∀ p, (∀ nodeList, metadata d !! f = Some nodeList →
                     p ∉ recorded_paths (nodes d) f nodeList) →
        files (disk (deleteFile d f).1) !! p = files (disk d) !! p) ∧
  Forall (λ e, ∃ q, ev_op e = OpRemove q)
         (io_since (disk d) (disk (deleteFile d f).1)).
Proof. apply deleteFile_frame_facts. Qed.

(** X9: after a delete that succeeded the file is unknown to the
    coordinator: a download and a second delete both report [NotFound]
    and change nothing. *)
Theorem delete_then_unknown d f :
  (deleteFile d f).2 = DeleteSuccess →
  metadata (deleteFile d f).1 !! f = None ∧
  download (deleteFile d f).1 f = ((deleteFile d f).1, NotFound) ∧
  deleteFile (deleteFile d f).1 f = ((deleteFile d f).1, NotFound).
Proof.
  intros Hout.
  assert (metadata (deleteFile d f).1 !! f = None) as Hgone.
  { revert Hout. unfold deleteFile.
    destruct (metadata d !! f) as [nodeList|]; [|done].
    destruct (delete_scan _ _ _ _) as [fs' []]; simpl; try done.
    intros _. apply lookup_delete_eq. }
  set (d' := (deleteFile d f).1) in *. split; [done|].
  unfold download, deleteFile. by rewrite Hgone.
Qed.

(** X10: where an upload lands depends on the nodes only: two uploads
    that succeed on the same vector of nodes record the same ids, whatever
    the files, the directory and the file system are. *)
Theorem placement_ignores_file d d' f g used used' :
  nodes d = nodes d' →
  (upload d f).2 = UploadSuccess used →
  (upload d' g).2 = UploadSuccess used' →
  used = used'.
Proof.
  assert (∀ e h u, (upload e h).2 = UploadSuccess u →
            u = id <$> take (Z.to_nat REPLICATION) (active_nodes (nodes e)))
    as Hplaced.
  { intros e h u. destruct (upload e h) as [e' out] eqn:Hup. simpl. intros ->.
    apply upload_cases in Hup as [_ [(_ & _ & ?)|(c & _ & Hcase)]]; [done|].
    destruct Hcase as [(_ & Hs)|[(_ & ? & _)|(? & _)]]; try done.
    simpl in Hs. destruct Hs as [Hu _]. by injection Hu. }
  intros Hns Hf%Hplaced Hg%Hplaced. by rewrite Hf, Hg, Hns.
Qed.


(** ** The listing *)

#[local] Instance key_le_total : Total key_le.
Proof. intros a b. apply (String.le_total a.1 b.1). Qed.

#[local] Instance key_le_trans : Transitive key_le.
Proof. intros a b c. apply (transitivity (R := String.le)). Qed.

(** X11: [listFiles] changes nothing and lists the directory exactly:
    every entry once, with the ids recorded for it, in the order of the
    file names; the listing is empty exactly when no file is stored. *)
Theorem listFiles_sorted_exact d :
  ∃ l, listFiles d = (d, FileList l) ∧
    StronglySorted key_le l ∧
    NoDup l.*1 ∧
    (∀ f nodeList, (f, nodeList) ∈ l ↔ metadata d !! f = Some nodeList) ∧
    (l = [] ↔ metadata d = ∅).
Proof.
  exists (entries (metadata d)). split; [done|]. unfold entries.
  split; [apply StronglySorted_merge_sort; apply _|].
  split; [rewrite merge_sort_Permutation; apply NoDup_fst_map_to_list|].
  split; [apply elem_of_entries|].
  rewrite <- map_to_list_empty_iff. split.
  - intros Hnil. apply Permutation_nil_r.
    rewrite <- (merge_sort_Permutation key_le). by rewrite Hnil.
  - intros Hnil. apply Permutation_nil_r.
    rewrite merge_sort_Permutation. by rewrite Hnil.
Qed.

(** ** The audit follows the node flags *)

Lemma elem_of_warnings d ws f c :
  replicas_in_range d → checkReplicaHealth d = Some ws →
  (f, c) ∈ ws ↔
  ∃ nodeList, metadata d !! f = Some nodeList ∧
    c = live_replicas (nodes d) nodeList ∧ c < 2.
Proof.
  intros Hrange. rewrite checkReplicaHealth_spec by done. intros [= <-].
  rewrite list_elem_of_omap. split.
  - intros ([f' nodeList] & Hin & Hw). apply elem_of_entries in Hin.
    unfold warning_of in Hw. simpl in Hw.
    destruct (_ <? 2) eqn:Hlt; [|discriminate]. apply Z.ltb_lt in Hlt.
    injection Hw as -> <-. eauto.
  - intros (nodeList & Hmeta & -> & Hlt). exists (f, nodeList).
    split; [by apply elem_of_entries|]. unfold warning_of. simpl.
    apply Z.ltb_lt in Hlt. by rewrite Hlt.
Qed.

Lemma live_replicas_mono ns ns' nodeList :
  (∀ i, node_flag ns i true → node_flag ns' i true) →
  live_replicas ns nodeList ≤ live_replicas ns' nodeList.
Proof.
  intros Himp. induction nodeList as [|i rest IH]; [done|].
  rewrite !live_replicas_cons.
  destruct (decide (node_flag ns i true)) as [Hi|Hi].
  - rewrite decide_True by auto. lia.
  - destruct (decide (node_flag ns' i true)); lia.
Qed.

Lemma failNode_flags d x i :
  node_flag (nodes (failNode d x).1) i true → node_flag (nodes d) i true.
Proof.
  unfold node_flag. rewrite node_at_failNode.
  destruct (node_at (nodes d) i) as [n|]; [|done]. simpl.
  by destruct (decide (i = x)).
Qed.

Lemma recoverNode_flags d x i :
  node_flag (nodes d) i true → node_flag (nodes (recoverNode d x).1) i true.
Proof.
  unfold node_flag. rewrite node_at_recoverNode.
  destruct (node_at (nodes d) i) as [n|]; [|done]. simpl.
  by destruct (decide (i = x)).
Qed.

Lemma failNode_warnings d x ws :
  (failNode d x).2 = NodeFailed x ws →
  checkReplicaHealth (failNode d x).1 = Some ws.
Proof.
  unfold failNode. destruct (_ || _); [done|].
  destruct (checkReplicaHealth _) as [ws'|] eqn:Hws; simpl; [|done].
  intros [= <-]. done.
Qed.

Lemma recoverNode_warnings d x ws :
  (recoverNode d x).2 = NodeRecovered x ws →
  checkReplicaHealth (recoverNode d x).1 = Some ws.
Proof.
  unfold recoverNode. destruct (_ || _); [done|].
  destruct (checkReplicaHealth _) as [ws'|] eqn:Hws; simpl; [|done].
  intros [= <-]. done.
Qed.

(** X12: the warnings follow the flags.  Every file the audit warned
    about before a node is failed is warned about after it, with a count
    no higher; every file warned about after a node is recovered was
    warned about before it, with a count no higher. *)
Theorem warnings_follow_flags d x before after :
  replicas_in_range d →
  checkReplicaHealth d = Some before →
  ((failNode d x).2 = NodeFailed x after →
   ∀ f c, (f, c) ∈ before → ∃ c', (f, c') ∈ after ∧ c' ≤ c) ∧
  ((recoverNode d x).2 = NodeRecovered x after →
   ∀ f c, (f, c) ∈ after → ∃ c', (f, c') ∈ before ∧ c' ≤ c).
Proof.
  intros Hrange Hbefore. split.
  - intros Hafter%failNode_warnings f c Hin.
    destruct (failNode_frame d x) as (Hmeta & _ & Hns).
    assert (replicas_in_range (failNode d x).1) as Hrange'.
    { intros g nodeList. rewrite Hmeta, Hns.
      destruct (decide _); [rewrite length_alter|]; apply Hrange. }
    apply (elem_of_warnings d before f c Hrange Hbefore) in Hin
      as (nodeList & Hf & -> & Hlt).
    exists (live_replicas (nodes (failNode d x).1) nodeList).
    pose proof (live_replicas_mono (nodes (failNode d x).1) (nodes d) nodeList
                  (failNode_flags d x)) as Hle.
    split; [|done].
    apply (elem_of_warnings _ after _ _ Hrange' Hafter).
    exists nodeList. rewrite Hmeta. split_and!; [done|done|lia].
  - intros Hafter%recoverNode_warnings f c Hin.
    destruct (recoverNode_frame d x) as (Hmeta & _ & Hns).
    assert (replicas_in_range (recoverNode d x).1) as Hrange'.
    { intros g nodeList. rewrite Hmeta, Hns.
      destruct (decide _); [rewrite length_alter|]; apply Hrange. }
    apply (elem_of_warnings _ after f c Hrange' Hafter) in Hin
      as (nodeList & Hf & -> & Hlt).
    rewrite Hmeta in Hf.
    exists (live_replicas (nodes d) nodeList).
    pose proof (live_replicas_mono (nodes d) (nodes (recoverNode d x).1)
                  nodeList (recoverNode_flags d x)) as Hle.
    split; [|done].
    apply (elem_of_warnings d before _ _ Hrange Hbefore).
    exists nodeList. split_and!; [done|done|lia].
Qed.


(** ** Invariants of a session *)

Lemma upload_success_sorted d f used :
  nodes_wf (nodes d) → (upload d f).2 = UploadSuccess used →
  StronglySorted Z.lt used.
Proof.
  intros Hwf Hout.
  destruct (upload_success_facts d f used Hwf Hout)
    as (_ & _ & _ & _ & -> & _).
  pose proof (active_ids_sorted _ Hwf) as Hsorted.
  rewrite <- (take_drop (Z.to_nat REPLICATION) (active_nodes (nodes d))),
    fmap_app in Hsorted.
  by apply StronglySorted_app_1_l in Hsorted.
Qed.

Lemma DistributedFS_new_dirs totalNodes fs :
  dirs_wf (nodes (DistributedFS_new totalNodes fs)) ∧
  replica_sets_wf (DistributedFS_new totalNodes fs).
Proof.
  split.
  - unfold dirs_wf. simpl. apply Forall_fmap, Forall_true. done.
  - intros f nodeList. simpl. by rewrite lookup_empty.
Qed.

Lemma dirs_wf_alter g x ns :
  (∀ n, id (g n) = id n ∧ directory (g n) = directory n) →
  dirs_wf ns → dirs_wf (alter g x ns).
Proof.
  intros Hg Hdirs. apply Forall_alter; [done|].
  intros n _ Hn. destruct (Hg n) as [-> ->]. done.
Qed.

Lemma exec_nodes d c :
  nodes (exec d c).1 = nodes d ∨
  (∃ x, nodes (exec d c).1 = alter fail x (nodes d)) ∨
  (∃ x, nodes (exec d c).1 = alter recover x (nodes d)).
Proof.
  destruct c as [f|f|f| |x|x| ]; simpl; try by left.
  - left. by destruct (upload_frame_facts d f).
  - left. by destruct (download_frame d f).
  - left. by destruct (deleteFile_frame_facts d f).
  - destruct (failNode_frame d x) as (_ & _ & ->).
    destruct (decide _); eauto.
  - destruct (recoverNode_frame d x) as (_ & _ & ->).
    destruct (decide _); eauto.
Qed.

Lemma exec_dirs d c : dirs_wf (nodes d) → dirs_wf (nodes (exec d c).1).
Proof.
  intros Hdirs.
  destruct (exec_nodes d c) as [->|[[x ->]|[x ->]]];
    [done|by apply dirs_wf_alter..].
Qed.

Lemma exec_replica_sets d c :
  nodes_wf (nodes d) → replica_sets_wf d → replica_sets_wf (exec d c).1.
Proof.
  intros Hwf Hsets. destruct c as [f|f|f| |x|x| ]; simpl; try done.
  - intros g nodeList.
    destruct (decide (g = f)) as [->|Hne].
    2:{ destruct (upload_frame_facts d f) as (_ & Hother & _).
        rewrite Hother by done. apply Hsets. }
    pose proof (upload_success_facts d f) as Hfacts.
    pose proof (upload_success_sorted d f) as Hsorted.
    destruct (upload d f) as [d' out] eqn:Hup. simpl in *.
    apply upload_cases in Hup as [_ [(_ & -> & _)|(c & _ & Hcase)]];
      [apply Hsets|].
    destruct Hcase as [(_ & Hs)|[(_ & _ & -> & _)|(_ & -> & _)]];
      [|apply Hsets..].
    simpl in Hs. destruct Hs as (-> & -> & _).
    rewrite lookup_insert_eq. intros [= <-].
    destruct (Hfacts _ Hwf eq_refl) as (_ & _ & _ & _ & _ & Hlen & _).
    split; [done|by apply Hsorted].
  - destruct (download_frame d f) as [_ Hmeta]. unfold replica_sets_wf.
    by rewrite Hmeta.
  - intros g nodeList.
    destruct (decide (g = f)) as [->|Hne].
    2:{ destruct (deleteFile_frame_facts d f) as (_ & Hother & _).
        rewrite Hother by done. apply Hsets. }
    unfold deleteFile. destruct (metadata d !! f) eqn:Hm; [|apply Hsets].
    destruct (delete_scan _ _ _ _) as [fs' []]; simpl; try apply Hsets.
    by rewrite lookup_delete_eq.
  - destruct (failNode_frame d x) as (Hmeta & _). unfold replica_sets_wf.
    by rewrite Hmeta.
  - destruct (recoverNode_frame d x) as (Hmeta & _). unfold replica_sets_wf.
    by rewrite Hmeta.
Qed.

Lemma run_session_wf cs : ∀ d,
  nodes_wf (nodes d) → dirs_wf (nodes d) →
  replicas_in_range d → replica_sets_wf d →
  nodes_wf (nodes (run d cs)) ∧ dirs_wf (nodes (run d cs)) ∧
  replicas_in_range (run d cs) ∧ replica_sets_wf (run d cs).
Proof.
  induction cs as [|c cs IH]; intros d Hwf Hdirs Hrange Hsets; [done|].
  simpl. destruct (exec_preserves d c Hwf Hrange).
  apply IH; [done|by apply exec_dirs|done|by apply exec_replica_sets].
Qed.

Lemma session_wf totalNodes fs cs :
  let d := run (DistributedFS_new totalNodes fs) cs in
  nodes_wf (nodes d) ∧ dirs_wf (nodes d) ∧
  replicas_in_range d ∧ replica_sets_wf d.
Proof.
  destruct (DistributedFS_new_wf totalNodes fs).
  destruct (DistributedFS_new_dirs totalNodes fs).
  by apply run_session_wf.
Qed.

(** X13: in every state a session reaches from the constructor, every
    recorded replica set has exactly [REPLICATION] ids, pairwise distinct
    and in ascending order. *)
Theorem recorded_sets_invariant totalNodes fs cs f nodeList :
  metadata (run (DistributedFS_new totalNodes fs) cs) !! f = Some nodeList →
  Z.of_nat (length nodeList) = REPLICATION ∧
  StronglySorted Z.lt nodeList ∧
  NoDup nodeList.
Proof.
  intros Hmeta. destruct (session_wf totalNodes fs cs) as (_ & _ & _ & Hsets).
  destruct (Hsets _ _ Hmeta) as [Hlen Hsorted].
  split_and!; [..|done|by apply StronglySorted_lt_NoDup].
  rewrite Hlen. done.
Qed.


(** ** Paths of the copies *)











(** ** The command loop *)

(** One turn of the loop, read off [main_loop]: the turn either leaves
    the loop, or goes on with some of the input consumed after running at
    most one command. *)
Lemma main_loop_turn fuel input cmd arg dfs out :
  let cmd' := (cin_read input cmd).1 in
  main_loop (S fuel) input cmd arg dfs out = Exited dfs out ∧ cmd' = "exit" ∨
  main_loop (S fuel) input cmd arg dfs out = Aborted dfs out ∧ cmd' ≠ "exit" ∨
  ∃ input' arg' dfs' line,
    main_loop (S fuel) input cmd arg dfs out =
      main_loop fuel input' cmd' arg' dfs' (out ++ [line]) ∧
    cmd' ≠ "exit" ∧ input' ⊆ input ∧
    (line = InvalidCommand ∧ dfs' = dfs ∨
     ∃ c, line = Ran (exec dfs c).2 ∧ dfs' = (exec dfs c).1).
Proof.
  simpl. destruct (cin_read input cmd) as [cmd' input1] eqn:Hcmd. simpl.
  assert (input1 ⊆ input) as Hsub1.
  { destruct input; simpl in Hcmd; injection Hcmd as <- <-; set_solver. }
  assert (∀ a, (cin_read input1 a).2 ⊆ input) as Hsub2.
  { intros a. destruct input1; simpl; set_solver. }
  repeat case_decide; subst; try (left; done).
  all: try (destruct (cin_read input1 arg) as [arg' input2] eqn:Harg;
            pose proof (Hsub2 arg) as Hsub; rewrite Harg in Hsub;
            simpl in Hsub).
  - destruct (exists_fault (length out) arg'); [right; left; done|].
    right. right. exists input2, arg', (upload dfs arg').1,
      (Ran (upload dfs arg').2).
    destruct (upload dfs arg') eqn:Hr. simpl. split_and!; try done.
    right. exists (CmdUpload arg'). simpl. by rewrite Hr.
  - right. right. exists input2, arg', (download dfs arg').1,
      (Ran (download dfs arg').2).
    destruct (download dfs arg') eqn:Hr. simpl. split_and!; try done.
    right. exists (CmdDownload arg'). simpl. by rewrite Hr.
  - right. right. exists input2, arg', (deleteFile dfs arg').1,
      (Ran (deleteFile dfs arg').2).
    destruct (deleteFile dfs arg') eqn:Hr. simpl. split_and!; try done.
    right. exists (CmdDelete arg'). simpl. by rewrite Hr.
  - right. right. exists input1, arg, dfs, (Ran (listFiles dfs).2).
    simpl. split_and!; try done. right. by exists CmdList.
  - destruct (stoi arg') as [nodeId|]; [|right; left; done].
    right. right. exists input2, arg', (failNode dfs nodeId).1,
      (Ran (failNode dfs nodeId).2).
    destruct (failNode dfs nodeId) eqn:Hr. simpl. split_and!; try done.
    right. exists (CmdFail nodeId). simpl. by rewrite Hr.
  - destruct (stoi arg') as [nodeId|]; [|right; left; done].
    right. right. exists input2, arg', (recoverNode dfs nodeId).1,
      (Ran (recoverNode dfs nodeId).2).
    destruct (recoverNode dfs nodeId) eqn:Hr. simpl. split_and!; try done.
    right. exists (CmdRecover nodeId). simpl. by rewrite Hr.
  - right. right. exists input1, arg, dfs, (Ran (showNodes dfs).2).
    simpl. split_and!; try done. right. by exists CmdNodes.
  - right. right. exists input1, arg, dfs, InvalidCommand.
    split_and!; try done. by left.
Qed.


Lemma main_loop_exit fuel : ∀ input cmd arg dfs out dfs' out',
  main_loop fuel input cmd arg dfs out = Exited dfs' out' →
  cmd = "exit" ∨ "exit" ∈ input.
Proof.
  induction fuel as [|fuel IH]; intros input cmd arg dfs out dfs' out' Hrun;
    [done|].
  destruct (main_loop_turn fuel input cmd arg dfs out)
    as [[_ Hexit]|[[Hab _]|(input' & arg' & dfs1 & line & Hgo & Hne & Hsub & _)]].
  - destruct input as [|word rest]; simpl in Hexit; [by left|].
    right. rewrite Hexit. by left.
  - congruence.
  - rewrite Hgo in Hrun. apply IH in Hrun as [?|Hin]; [done|].
    right. by apply Hsub.
Qed.

(** X17: [main] returns only on the command [exit]: when the word
    [exit] is nowhere in the input, [main] has not returned after any
    number of turns of the loop; it is still looping, or an exception
    that nothing catches has ended the program. *)
Theorem main_returns_only_on_exit input fs :
  "exit" ∉ input →
  ∀ fuel dfs out, main fuel input fs ≠ Exited dfs out.
Proof.
  intros Hno fuel dfs out Hrun. unfold main in Hrun.
  apply main_loop_exit in Hrun as [?|?]; done.
Qed.



(** X19: the loop of [main] runs a script followed by [exit] command by
    command.  When [stoi] reads back the node ids as they are written and
    [fs::exists] raises for none of the uploaded names, the loop, from
    any state of the coordinator, on the words of the commands [cs], then
    [exit], then anything, leaves by its [break] as soon as it has run
    one turn more than there are commands: in the state [cs] lead to,
    having printed the message of each command in turn and nothing else;
    what follows [exit] is not read. *)
Theorem main_runs_script show rest cs : ∀ fuel cmd arg dfs out,
  Forall (λ c, Forall (λ n, stoi (show n) = Some n) (node_args c)) cs →
  Forall (λ c, Forall (λ f, ∀ k, exists_fault k f = false) (upload_args c))
         cs →
  (length cs < fuel)%nat →
  main_loop fuel (concat (words_of show <$> cs) ++ "exit" :: rest)
            cmd arg dfs out
  = Exited (run dfs cs) (out ++ (Ran <$> run_out dfs cs)).
Proof.
  induction cs as [|c cs IH]; intros fuel cmd arg dfs out Hstoi Hprobe Hfuel;
    (destruct fuel as [|fuel]; [simpl in Hfuel; lia|]).
  - simpl. by rewrite app_nil_r.
  - apply Forall_cons in Hstoi as [Hc Hstoi].
    apply Forall_cons in Hprobe as [Hp Hprobe]. simpl in Hfuel.
    assert (∀ o : Outcome, (out ++ [Ran o]) ++ (Ran <$> run_out (exec dfs c).1 cs)
              = out ++ (Ran <$> o :: run_out (exec dfs c).1 cs)) as Hout
      by (intros o; by rewrite <- app_assoc).
    destruct c as [f|f|f| |x|x| ]; simpl in *.
    + apply Forall_cons in Hp as [-> _].
      destruct (upload dfs f) as [dfs1 o]. simpl.
      rewrite IH by (done || lia). apply f_equal, Hout.
    + destruct (download dfs f) as [dfs1 o]. simpl.
      rewrite IH by (done || lia). apply f_equal, Hout.
    + destruct (deleteFile dfs f) as [dfs1 o]. simpl.
      rewrite IH by (done || lia). apply f_equal, Hout.
    + rewrite IH by (done || lia). apply f_equal, Hout.
    + apply Forall_cons in Hc as [-> _].
      destruct (failNode dfs x) as [dfs1 o]. simpl.
      rewrite IH by (done || lia). apply f_equal, Hout.
    + apply Forall_cons in Hc as [-> _].
      destruct (recoverNode dfs x) as [dfs1 o]. simpl.
      rewrite IH by (done || lia). apply f_equal, Hout.
    + rewrite IH by (done || lia). apply f_equal, Hout.
Qed.

(** ** The fresh cluster and the status of the nodes *)

(** X20: the constructor builds [totalNodes] nodes with the ids 1 to
    [totalNodes], all active, each with a directory of its own, and an
    empty directory of files, for which the audit prints nothing. *)
Theorem fresh_cluster totalNodes fs :
  0 ≤ totalNodes →
  let d := DistributedFS_new totalNodes fs in
  Z.of_nat (length (nodes d)) = totalNodes ∧
  (∀ i, 1 ≤ i ≤ totalNodes →
        node_at (nodes d) i = Some (mkNode i true ("node_" +:+ pretty i))) ∧
  NoDup (directory <$> nodes d) ∧
  metadata d = ∅ ∧ disk d = fs ∧
  checkReplicaHealth d = Some [].
Proof.
  intros Hn d. split_and!; try done.
  - simpl. rewrite length_fmap, length_seqZ. lia.
  - intros i Hi. unfold node_at.
    replace (1 <=? i) with true by (symmetry; apply Z.leb_le; lia).
    simpl. rewrite list_lookup_fmap, lookup_seqZ_lt by lia. simpl.
    replace (1 + Z.of_nat (Z.to_nat (i - 1))) with i by lia. done.
  - simpl. rewrite <- list_fmap_compose.
    assert (Inj (=) (=) (λ i : Z, "node_" +:+ pretty i)) as Hinj.
    { intros a b Heq. apply (inj (String.app "node_")) in Heq.
      by apply (inj pretty) in Heq. }
    apply (NoDup_fmap_2 (λ i : Z, "node_" +:+ pretty i)), NoDup_seqZ.
Qed.

(** X21: [showNodes] changes nothing and prints one row for each node,
    in the order of the ids 1, 2, ..., each row with the flag the node has
    now. *)
Theorem showNodes_rows d :
  nodes_wf (nodes d) →
  ∃ rows, showNodes d = (d, NodeStatus rows) ∧
    rows.*1 = seqZ 1 (Z.of_nat (length (nodes d))) ∧
    (∀ i b, (i, b) ∈ rows ↔ node_flag (nodes d) i b).
Proof.
  intros Hwf. eexists. split; [done|]. split.
  - rewrite <- list_fmap_compose. exact Hwf.
  - intros i b. rewrite list_elem_of_fmap. unfold node_flag. split.
    + intros (n & [= -> ->] & Hn). by rewrite (node_at_elem _ _ Hwf Hn).
    + destruct (node_at (nodes d) i) as [n|] eqn:Hn; [|done].
      simpl. intros [= <-]. exists n.
      rewrite (node_at_id _ _ _ Hwf Hn). split; [done|].
      apply node_at_Some in Hn as [_ Hn]. by eapply list_elem_of_lookup_2.
Qed.

End Coordinator.

(** ** The examples *)

Ltac by_eval := apply (bool_decide_unpack _); vm_compute; exact I.

(** A session on four nodes: upload, two failures, a download, a
    recovery. *)
Example session_scenario :
  let s1 := upload never cluster4 "a.txt" in
  let s2 := failNode s1.1 1 in
  let s3 := failNode s2.1 2 in
  let s4 := download never s3.1 "a.txt" in
  let s5 := recoverNode s4.1 1 in
  s1.2 = UploadSuccess [1; 2; 3] ∧
  s2.2 = NodeFailed 1 [] ∧
  s3.2 = NodeFailed 2 [("a.txt", 1)] ∧
  s4.2 = DownloadSuccess 3 ∧
  s5.2 = NodeRecovered 1 [].
Proof. vm_compute. repeat split. Qed.

(** The directory is listed in key order, whatever the upload order. *)
Example listing_in_key_order :
  let fs := {| files := {[ "b.txt" := "x"; "a.txt" := "y" ]}; io_log := [] |} in
  let d := run never (DistributedFS_new 4 fs)
               [CmdUpload "b.txt"; CmdFail 1; CmdUpload "a.txt"] in
  (listFiles d).2 = FileList [("a.txt", [2; 3; 4]); ("b.txt", [1; 2; 3])].
Proof. vm_compute. reflexivity. Qed.

(** Ids outside the vector are refused by [failNode] and [recoverNode]. *)
Example invalid_node_ids :
  (failNode cluster4 0).2 = InvalidNode 0 ∧
  (failNode cluster4 5).2 = InvalidNode 5 ∧
  (recoverNode cluster4 (-1)).2 = InvalidNode (-1).
Proof. vm_compute. repeat split. Qed.

(** C1, the claim as first stated fails: after [a.txt] was uploaded to
    nodes 1, 2 and 3, a delete whose second removal raises keeps the key
    in the directory although the copy on node 1 is already gone. *)
Lemma deleteFile_partial_counterexample :
  let d := (upload never cluster4 "a.txt").1 in
  let d' := (deleteFile (raises_at 4) d "a.txt").1 in
  metadata d !! "a.txt" = Some [1; 2; 3] ∧
  (deleteFile (raises_at 4) d "a.txt").2 = ReplicationIOError ∧
  files (disk d) !! "node_1/a.txt" = Some "hello" ∧
  files (disk d') !! "node_1/a.txt" = None ∧
  files (disk d') !! "node_2/a.txt" = Some "hello" ∧
  metadata d' !! "a.txt" = Some [1; 2; 3] ∧
  ¬ ((metadata d' !! "a.txt" = None ∧
      ∀ p, p ∈ ["node_1/a.txt"; "node_2/a.txt"; "node_3/a.txt"] →
           files (disk d') !! p = None) ∨
     (metadata d' !! "a.txt" = metadata d !! "a.txt" ∧
      ∀ p, p ∈ ["node_1/a.txt"; "node_2/a.txt"; "node_3/a.txt"] →
           files (disk d') !! p = files (disk d) !! p)).
Proof.
  intros d d'.
  assert (metadata d' !! "a.txt" = Some [1; 2; 3]) as Hkey
    by (vm_compute; reflexivity).
  assert (files (disk d) !! "node_1/a.txt" = Some "hello") as Hbefore
    by (vm_compute; reflexivity).
  assert (files (disk d') !! "node_1/a.txt" = None) as Hafter
    by (vm_compute; reflexivity).
  split_and!; try (vm_compute; reflexivity).
  intros [[Hgone _]|[_ Hsame]].
  - rewrite Hkey in Hgone. discriminate.
  - specialize (Hsame "node_1/a.txt" ltac:(left)).
    rewrite Hbefore, Hafter in Hsame. discriminate.
Qed.

(** A delete whose second removal raises: the directory is unchanged. *)
Lemma deleteFile_outcome_witness :
  let d := (upload never cluster4 "a.txt").1 in
  let d' := (deleteFile (raises_at 4) d "a.txt").1 in
  replicas_in_range d ∧
  metadata d !! "a.txt" = Some [1; 2; 3] ∧
  ((deleteFile (raises_at 4) d "a.txt").2 = DeleteSuccess ∧
   metadata d' = delete "a.txt" (metadata d) ∨
   (deleteFile (raises_at 4) d "a.txt").2 = ReplicationIOError ∧
   metadata d' = metadata d).
Proof.
  intros d d'.
  assert (replicas_in_range d) as Hrange by by_eval.
  assert (metadata d !! "a.txt" = Some [1; 2; 3]) as Hmeta
    by (vm_compute; reflexivity).
  split; [exact Hrange|]. split; [exact Hmeta|].
  destruct (deleteFile_outcome (raises_at 4) d "a.txt" [1; 2; 3] Hrange Hmeta)
    as [(Hout & Hdir & _)|(Hout & Hdir & _)].
  - left. split; [exact Hout|exact Hdir].
  - right. split; [exact Hout|exact Hdir].
Defined.

(** With node 2 failed, an upload lands on nodes 1, 3 and 4. *)
Lemma upload_places_three_lowest_witness :
  let d := (failNode cluster4 2).1 in
  nodes_wf (nodes d) ∧
  fs_exists (disk d) "a.txt" = true ∧
  REPLICATION ≤ Z.of_nat (length (active_nodes (nodes d))) ∧
  Forall (λ e, ev_ok e = true)
         (io_since (disk d) (disk (upload never d "a.txt").1)) ∧
  (upload never d "a.txt").2 = UploadSuccess [1; 3; 4] ∧
  ∃ used,
    (upload never d "a.txt").2 = UploadSuccess used ∧
    metadata (upload never d "a.txt").1 = <["a.txt" := used]> (metadata d) ∧
    Z.of_nat (length used) = REPLICATION ∧
    NoDup used ∧
    StronglySorted Z.lt used ∧
    (∀ i, i ∈ used → node_flag (nodes d) i true) ∧
    (∀ i j, i ∈ used → node_flag (nodes d) j true → j ∉ used → i < j).
Proof.
  intros d.
  assert (nodes_wf (nodes d)) as Hwf by (vm_compute; reflexivity).
  assert (fs_exists (disk d) "a.txt" = true) as Hsrc
    by (vm_compute; reflexivity).
  assert (REPLICATION ≤ Z.of_nat (length (active_nodes (nodes d)))) as Hmany
    by (vm_compute; discriminate).
  assert (Forall (λ e, ev_ok e = true)
            (io_since (disk d) (disk (upload never d "a.txt").1))) as Hok
    by by_eval.
  split; [exact Hwf|]. split; [exact Hsrc|]. split; [exact Hmany|].
  split; [exact Hok|]. split; [vm_compute; reflexivity|].
  exact (upload_places_three_lowest never d "a.txt" Hwf Hsrc Hmany Hok).
Defined.

(** C3, the claim as first stated fails: with two active nodes an
    upload of a missing source reports [SourceNotFound], and an upload
    whose first store call raises reports [ReplicationIOError]. *)
Lemma upload_few_active_counterexample :
  let d := run never cluster4 [CmdFail 1; CmdFail 2] in
  Z.of_nat (length (active_nodes (nodes d))) = 2 ∧
  (upload never d "b.txt").2 = SourceNotFound ∧
  (upload never d "b.txt").2 ≠ InsufficientReplicas ∧
  (upload (raises_at 0) d "a.txt").2 = ReplicationIOError ∧
  (upload (raises_at 0) d "a.txt").2 ≠ InsufficientReplicas.
Proof.
  intros d. split_and!; try (vm_compute; reflexivity);
    vm_compute; discriminate.
Qed.

(** With two active nodes and the source present, an upload is rejected. *)
Lemma upload_few_active_keeps_directory_witness :
  let d := run never cluster4 [CmdFail 1; CmdFail 2] in
  Z.of_nat (length (active_nodes (nodes d))) < REPLICATION ∧
  fs_exists (disk d) "a.txt" = true ∧
  Forall (λ e, ev_ok e = true)
         (io_since (disk d) (disk (upload never d "a.txt").1)) ∧
  metadata (upload never d "a.txt").1 = metadata d ∧
  (upload never d "a.txt").2 = InsufficientReplicas.
Proof.
  intros d.
  assert (Z.of_nat (length (active_nodes (nodes d))) < REPLICATION) as Hfew
    by (vm_compute; reflexivity).
  assert (fs_exists (disk d) "a.txt" = true) as Hsrc
    by (vm_compute; reflexivity).
  assert (Forall (λ e, ev_ok e = true)
            (io_since (disk d) (disk (upload never d "a.txt").1))) as Hok
    by by_eval.
  split; [exact Hfew|]. split; [exact Hsrc|]. split; [exact Hok|].
  destruct (upload_few_active_keeps_directory never d "a.txt" Hfew)
    as [Hdir Hout].
  split; [exact Hdir|exact (Hout Hsrc Hok)].
Defined.

(** Recorded order 2, 1, 3 with node 2 down: the read comes from node 1. *)
Lemma download_first_active_witness :
  metadata shuffled !! "a.txt" = Some ([2] ++ 1 :: [3]) ∧
  Forall (λ j, node_flag (nodes shuffled) j false) [2] ∧
  node_flag (nodes shuffled) 1 true ∧
  (download never shuffled "a.txt").2 = DownloadSuccess 1 ∧
  files (disk (download never shuffled "a.txt").1) !! "downloaded_a.txt"
    = Some "one" ∧
  ∃ n ok,
    node_at (nodes shuffled) 1 = Some n ∧
    io_since (disk shuffled) (disk (download never shuffled "a.txt").1) =
      [mkEvent (OpCopy (replica_path n "a.txt") ("downloaded_" +:+ "a.txt")) ok] ∧
    (download never shuffled "a.txt").2 =
      (if ok then DownloadSuccess 1 else ReplicationIOError) ∧
    (ok = true →
     files (disk (download never shuffled "a.txt").1) =
       <["downloaded_" +:+ "a.txt" :=
           default "" (files (disk shuffled) !! replica_path n "a.txt")]>
         (files (disk shuffled)) ∧
     is_Some (files (disk shuffled) !! replica_path n "a.txt")).
Proof.
  assert (metadata shuffled !! "a.txt" = Some ([2] ++ 1 :: [3])) as Hmeta
    by (vm_compute; reflexivity).
  assert (Forall (λ j, node_flag (nodes shuffled) j false) [2]) as Hpre
    by by_eval.
  assert (node_flag (nodes shuffled) 1 true) as Hi
    by (vm_compute; reflexivity).
  split; [exact Hmeta|]. split; [exact Hpre|]. split; [exact Hi|].
  split; [vm_compute; reflexivity|]. split; [vm_compute; reflexivity|].
  exact (download_first_active never shuffled "a.txt" [2] 1 [3] Hmeta Hpre Hi).
Defined.

(** The second store call raises: the copy on node 1 stays behind. *)
Lemma upload_store_failure_aborts_witness :
  Exists (λ e, ev_ok e = false)
         (io_since (disk cluster4)
                   (disk (upload (raises_at 1) cluster4 "a.txt").1)) ∧
  (upload (raises_at 1) cluster4 "a.txt").2 = ReplicationIOError ∧
  metadata (upload (raises_at 1) cluster4 "a.txt").1 = metadata cluster4 ∧
  files (disk (upload (raises_at 1) cluster4 "a.txt").1) !! "node_1/a.txt"
    = Some "hello".
Proof.
  assert (Exists (λ e, ev_ok e = false)
            (io_since (disk cluster4)
                      (disk (upload (raises_at 1) cluster4 "a.txt").1)))
    as Hbad by by_eval.
  split; [exact Hbad|].
  destruct (upload_store_failure_aborts (raises_at 1) cluster4 "a.txt" Hbad)
    as (Hout & Hdir & _).
  split; [exact Hout|]. split; [exact Hdir|]. vm_compute; reflexivity.
Defined.

(** The fetch from node 1 raises although node 2 holds a good copy. *)
Lemma download_fetch_failure_aborts_witness :
  let d := (upload never cluster4 "a.txt").1 in
  metadata d !! "a.txt" = Some [1; 2; 3] ∧
  Exists (λ e, ev_ok e = false)
         (io_since (disk d) (disk (download (raises_at 3) d "a.txt").1)) ∧
  (download (raises_at 3) d "a.txt").2 = ReplicationIOError ∧
  files (disk (download (raises_at 3) d "a.txt").1) = files (disk d) ∧
  files (disk d) !! "node_2/a.txt" = Some "hello".
Proof.
  intros d.
  assert (metadata d !! "a.txt" = Some [1; 2; 3]) as Hmeta
    by (vm_compute; reflexivity).
  assert (Exists (λ e, ev_ok e = false)
            (io_since (disk d) (disk (download (raises_at 3) d "a.txt").1)))
    as Hbad by by_eval.
  split; [exact Hmeta|]. split; [exact Hbad|].
  destruct (download_fetch_failure_aborts (raises_at 3) d "a.txt" [1; 2; 3]
              Hmeta Hbad) as (Hout & Hfiles & _).
  split; [exact Hout|]. split; [exact Hfiles|]. vm_compute; reflexivity.
Defined.

(** Two of three replicas down: a warning with count 1; one down: none. *)
Lemma audit_warns_below_two_witness :
  let one_down := run never cluster4 [CmdUpload "a.txt"; CmdFail 1] in
  let two_down := run never cluster4 [CmdUpload "a.txt"; CmdFail 1; CmdFail 2] in
  replicas_in_range two_down ∧
  metadata two_down !! "a.txt" = Some [1; 2; 3] ∧
  checkReplicaHealth two_down = Some [("a.txt", 1)] ∧
  checkReplicaHealth one_down = Some [] ∧
  ∃ ws, checkReplicaHealth two_down = Some ws ∧
    ∀ f activeCount,
      (f, activeCount) ∈ ws ↔
      ∃ nodeList, metadata two_down !! f = Some nodeList ∧
        activeCount = live_replicas (nodes two_down) nodeList ∧
        activeCount < 2.
Proof.
  intros one_down two_down.
  assert (replicas_in_range two_down) as Hrange by by_eval.
  split; [exact Hrange|]. split; [vm_compute; reflexivity|].
  split; [vm_compute; reflexivity|]. split; [vm_compute; reflexivity|].
  exact (audit_warns_below_two two_down Hrange).
Defined.

(** Node 2 failed twice, and recovered twice. *)
Lemma fail_recover_idempotent_witness :
  let d := (upload never cluster4 "a.txt").1 in
  replicas_in_range d ∧
  1 ≤ 2 ≤ Z.of_nat (length (nodes d)) ∧
  (failNode (failNode d 2).1 2).1 = (failNode d 2).1 ∧
  (recoverNode (recoverNode d 2).1 2).1 = (recoverNode d 2).1 ∧
  (failNode (failNode d 2).1 2).2 = NodeFailed 2 [] ∧
  node_flag (nodes (failNode (failNode d 2).1 2).1) 2 false.
Proof.
  intros d.
  assert (replicas_in_range d) as Hrange by by_eval.
  assert (1 ≤ 2 ≤ Z.of_nat (length (nodes d))) as Hx
    by (vm_compute; split; discriminate).
  split; [exact Hrange|]. split; [exact Hx|].
  destruct (fail_recover_idempotent d 2 Hrange Hx)
    as [(_ & Hdown & _ & _ & Hfail) (_ & _ & _ & _ & Hrec)].
  split; [exact Hfail|]. split; [exact Hrec|].
  split; [vm_compute; reflexivity|exact Hdown].
Defined.

(** C10, the claim as first stated fails: when [a.txt] was uploaded
    before and nodes 1 and 2 have failed since, a second upload is
    rejected and the directory still has the entry of the first one. *)
Lemma upload_rejected_counterexample :
  let d := run never cluster4 [CmdUpload "a.txt"; CmdFail 1; CmdFail 2] in
  (upload never d "a.txt").2 = InsufficientReplicas ∧
  metadata (upload never d "a.txt").1 !! "a.txt" = Some [1; 2; 3] ∧
  metadata (upload never d "a.txt").1 !! "a.txt" ≠ None.
Proof.
  intros d. split_and!; try (vm_compute; reflexivity).
  vm_compute. discriminate.
Qed.

(** A first upload with two active nodes: copies on nodes 3 and 4, no entry. *)
Lemma upload_rejected_leaves_copies_witness :
  let d := run never cluster4 [CmdFail 1; CmdFail 2] in
  files (disk d) !! "a.txt" = Some "hello" ∧
  (upload never d "a.txt").2 = InsufficientReplicas ∧
  metadata (upload never d "a.txt").1 = metadata d ∧
  files (disk (upload never d "a.txt").1) !! "node_3/a.txt" = Some "hello" ∧
  files (disk (upload never d "a.txt").1) !! "node_4/a.txt" = Some "hello" ∧
  metadata (upload never d "a.txt").1 !! "a.txt" = None.
Proof.
  intros d.
  assert (files (disk d) !! "a.txt" = Some "hello") as Hsrc
    by (vm_compute; reflexivity).
  assert ((upload never d "a.txt").2 = InsufficientReplicas) as Hout
    by (vm_compute; reflexivity).
  split; [exact Hsrc|]. split; [exact Hout|].
  destruct (upload_rejected_leaves_copies never d "a.txt" "hello" Hsrc Hout)
    as (Hdir & _).
  split; [exact Hdir|]. split_and!; vm_compute; reflexivity.
Defined.

(** ** Examples for the further properties *)

(** What [decimal_stoi] reads: a prefix of digits after an optional sign,
    within the range of [int]. *)
Example decimal_stoi_reads :
  decimal_stoi "12abc" = Some 12 ∧ decimal_stoi "-3" = Some (-3) ∧
  decimal_stoi "+7" = Some 7 ∧ decimal_stoi "abc" = None ∧
  decimal_stoi "" = None ∧ decimal_stoi "-" = None ∧
  decimal_stoi "2147483647" = Some 2147483647 ∧
  decimal_stoi "2147483648" = None.
Proof. vm_compute. repeat split. Qed.

(** At the end of an input without [exit] the loop repeats the last
    command; a node id that is no number ends the program, and so does
    an upload for whose name [fs::exists] raises. *)
Example main_without_exit :
  printed (main never decimal_stoi probes_return 4 ["fail"; "1"] local_disk)
    = [Ran (NodeFailed 1 []); Ran (NodeFailed 1 []);
       Ran (NodeFailed 1 []); Ran (NodeFailed 1 [])] ∧
  main never decimal_stoi probes_return 4
       ["bogus"; "fail"; "x"; "list"] local_disk
    = Aborted cluster4 [InvalidCommand] ∧
  main never decimal_stoi (λ _ name, bool_decide (name = "b.txt")) 4
       ["list"; "upload"; "b.txt"; "exit"] local_disk
    = Aborted cluster4 [Ran (FileList [])].
Proof. vm_compute. repeat split. Qed.

(** Node 2 of the fresh cluster, failed and recovered. *)
Lemma fail_recover_round_trip_witness :
  node_flag (nodes cluster4) 2 true ∧
  (recoverNode (failNode cluster4 2).1 2).1 = cluster4.
Proof.
  assert (node_flag (nodes cluster4) 2 true) as Hup
    by (vm_compute; reflexivity).
  split; [exact Hup|].
  exact (proj1 (fail_recover_round_trip cluster4 2) Hup).
Defined.

(** All three recorded nodes down: nothing to read from. *)
Lemma download_unavailable_iff_witness :
  let d := run never cluster4
               [CmdUpload "a.txt"; CmdFail 1; CmdFail 2; CmdFail 3] in
  metadata d !! "a.txt" = Some [1; 2; 3] ∧
  (download never d "a.txt").2 = AllReplicasUnavailable ∧
  (download never d "a.txt").1 = d.
Proof.
  intros d.
  assert (metadata d !! "a.txt" = Some [1; 2; 3]) as Hmeta
    by (vm_compute; reflexivity).
  assert (Forall (λ j, node_flag (nodes d) j false) [1; 2; 3]) as Hdown
    by by_eval.
  split; [exact Hmeta|].
  destruct (download_unavailable_iff never d "a.txt" [1; 2; 3] Hmeta)
    as [Hiff Hsame].
  split; [exact (proj2 Hiff Hdown)|exact (Hsame (proj2 Hiff Hdown))].
Defined.



(** Upload, delete, then look the file up again. *)
Lemma delete_then_unknown_witness :
  let d := (upload never cluster4 "a.txt").1 in
  (deleteFile never d "a.txt").2 = DeleteSuccess ∧
  metadata (deleteFile never d "a.txt").1 !! "a.txt" = None ∧
  download never (deleteFile never d "a.txt").1 "a.txt"
    = ((deleteFile never d "a.txt").1, NotFound) ∧
  deleteFile never (deleteFile never d "a.txt").1 "a.txt"
    = ((deleteFile never d "a.txt").1, NotFound).
Proof.
  intros d.
  assert ((deleteFile never d "a.txt").2 = DeleteSuccess) as Hout
    by (vm_compute; reflexivity).
  split; [exact Hout|]. exact (delete_then_unknown never d "a.txt" Hout).
Defined.

(** The same file uploaded twice lands on the same nodes. *)
Lemma placement_ignores_file_witness :
  let d' := (upload never cluster4 "a.txt").1 in
  nodes cluster4 = nodes d' ∧
  (upload never cluster4 "a.txt").2 = UploadSuccess [1; 2; 3] ∧
  (upload never d' "a.txt").2 = UploadSuccess [1; 2; 3].
Proof.
  intros d'.
  assert (nodes cluster4 = nodes d') as Hns by (vm_compute; reflexivity).
  assert ((upload never cluster4 "a.txt").2 = UploadSuccess [1; 2; 3])
    as Hfirst by (vm_compute; reflexivity).
  assert (∃ used, (upload never d' "a.txt").2 = UploadSuccess used)
    as [used Hsecond] by (eexists; vm_compute; reflexivity).
  split; [exact Hns|]. split; [exact Hfirst|].
  rewrite Hsecond. f_equal. symmetry.
  exact (placement_ignores_file never cluster4 d' "a.txt" "a.txt"
           [1; 2; 3] used Hns Hfirst Hsecond).
Defined.

(** Two nodes down, then a third fails: the warning stays. *)
Lemma warnings_follow_flags_witness :
  let d := run never cluster4 [CmdUpload "a.txt"; CmdFail 1; CmdFail 2] in
  replicas_in_range d ∧
  checkReplicaHealth d = Some [("a.txt", 1)] ∧
  (failNode d 3).2 = NodeFailed 3 [("a.txt", 0)] ∧
  (∀ f c, (f, c) ∈ [("a.txt", 1)] →
          ∃ c', (f, c') ∈ [("a.txt", 0)] ∧ c' ≤ c).
Proof.
  intros d.
  assert (replicas_in_range d) as Hrange by by_eval.
  assert (checkReplicaHealth d = Some [("a.txt", 1)]) as Hbefore
    by (vm_compute; reflexivity).
  assert ((failNode d 3).2 = NodeFailed 3 [("a.txt", 0)]) as Hafter
    by (vm_compute; reflexivity).
  split; [exact Hrange|]. split; [exact Hbefore|]. split; [exact Hafter|].
  exact (proj1 (warnings_follow_flags d 3 [("a.txt", 1)] [("a.txt", 0)]
                  Hrange Hbefore) Hafter).
Defined.

(** The set recorded for [a.txt] is still 1, 2, 3 after node 1 failed. *)
Lemma recorded_sets_invariant_witness :
  metadata (run never (DistributedFS_new 4 local_disk)
                [CmdUpload "a.txt"; CmdFail 1]) !! "a.txt"
    = Some [1; 2; 3] ∧
  Z.of_nat (length [1; 2; 3]) = REPLICATION ∧
  StronglySorted Z.lt [1; 2; 3] ∧
  NoDup [1; 2; 3].
Proof.
  assert (metadata (run never (DistributedFS_new 4 local_disk)
                        [CmdUpload "a.txt"; CmdFail 1]) !! "a.txt"
          = Some [1; 2; 3]) as Hmeta by (vm_compute; reflexivity).
  split; [exact Hmeta|].
  exact (recorded_sets_invariant never 4 local_disk
           [CmdUpload "a.txt"; CmdFail 1] "a.txt" [1; 2; 3] Hmeta).
Defined.




(** An input that ends without [exit]. *)
Lemma main_returns_only_on_exit_witness :
  ("exit" ∉ ["upload"; "a.txt"; "list"]) ∧
  ∀ fuel dfs out,
    main never decimal_stoi probes_return fuel
         ["upload"; "a.txt"; "list"] local_disk
    ≠ Exited dfs out.
Proof.
  assert ("exit" ∉ ["upload"; "a.txt"; "list"]) as Hno by by_eval.
  split; [exact Hno|].
  exact (main_returns_only_on_exit never decimal_stoi probes_return
           ["upload"; "a.txt"; "list"] local_disk Hno).
Defined.

(** A script of three commands, [exit], and a word that is not read. *)
Lemma main_runs_script_witness :
  let cs := [CmdUpload "a.txt"; CmdFail 1; CmdList] in
  Forall (λ c, Forall (λ n, decimal_stoi (pretty n) = Some n) (node_args c))
         cs ∧
  Forall (λ c, Forall (λ f, ∀ k, probes_return k f = false) (upload_args c))
         cs ∧
  (length cs < 4)%nat ∧
  concat (words_of pretty <$> cs) ++ "exit" :: ["nodes"]
    = ["upload"; "a.txt"; "fail"; "1"; "list"; "exit"; "nodes"] ∧
  main_loop never decimal_stoi probes_return 4
       (concat (words_of pretty <$> cs) ++ "exit" :: ["nodes"])
       "" "" cluster4 []
  = Exited (run never cluster4 cs) ([] ++ (Ran <$> run_out never cluster4 cs)).
Proof.
  intros cs.
  assert (Forall (λ c, Forall (λ n, decimal_stoi (pretty n) = Some n)
                              (node_args c)) cs) as Hstoi by by_eval.
  assert (Forall (λ c, Forall (λ f, ∀ k, probes_return k f = false)
                              (upload_args c)) cs) as Hprobe
    by (repeat constructor).
  assert (length cs < 4)%nat as Hfuel by (vm_compute; lia).
  split; [exact Hstoi|]. split; [exact Hprobe|]. split; [exact Hfuel|].
  split; [vm_compute; reflexivity|].
  exact (main_runs_script never decimal_stoi probes_return pretty ["nodes"] cs
           4 "" "" cluster4 [] Hstoi Hprobe Hfuel).
Defined.

(** The cluster of [main]. *)
Lemma fresh_cluster_witness :
  0 ≤ 4 ∧
  Z.of_nat (length (nodes cluster4)) = 4 ∧
  NoDup (directory <$> nodes cluster4) ∧
  checkReplicaHealth cluster4 = Some [].
Proof.
  assert (0 ≤ 4) as Hn by lia.
  split; [exact Hn|].
  destruct (fresh_cluster 4 local_disk Hn) as (Hlen & _ & Hdirs & _ & _ & Hws).
  split; [exact Hlen|]. split; [exact Hdirs|exact Hws].
Defined.

(** The status after node 2 failed. *)
Lemma showNodes_rows_witness :
  let d := (failNode cluster4 2).1 in
  nodes_wf (nodes d) ∧
  (showNodes d).2 = NodeStatus [(1, true); (2, false); (3, true); (4, true)] ∧
  ∃ rows, showNodes d = (d, NodeStatus rows) ∧
    rows.*1 = seqZ 1 (Z.of_nat (length (nodes d))) ∧
    (∀ i b, (i, b) ∈ rows ↔ node_flag (nodes d) i b).
Proof.
  intros d.
  assert (nodes_wf (nodes d)) as Hwf by (vm_compute; reflexivity).
  split; [exact Hwf|]. split; [vm_compute; reflexivity|].
  exact (showNodes_rows d Hwf).
Defined.
